(** * The streaming result consumer of the leads page

    A shallow embedding of the event handlers that [LeadsPage] registers on
    its [EventSource] (the [useEffect] keyed on [taskId]), together with the
    helper [extractTextContent], and the properties of the transcript, the
    completion flag and the error slot that follow from them. *)

From Stdlib Require Import List String Ascii ZArith Bool Lia.
Import ListNotations.
Open Scope string_scope.
Set Warnings "-register-all".

(** ** Values that [JSON.parse] can return *)

Module Js.

(** A parsed JSON document.  A number is kept as its [Number::toString]
    rendering: the page never computes with numbers, it only prints them and
    tests them against zero.  An object is its list of own properties; a
    lookup takes the first binding of a key. *)
Inductive json : Type :=
| JNull
| JBool (b : bool)
| JNum (shown : string)
| JStr (s : string)
| JArr (items : list json)
| JObj (fields : list (string * json)).

(** A JavaScript value met by the page: [None] is [undefined]. *)
Definition value : Type := option json.

(** The completion of an expression: a result, or a raised exception. *)
Inductive outcome (A : Type) : Type :=
| Returns (a : A)
| Throws.
Arguments Returns {A} a.
Arguments Throws {A}.

Definition obind {A B} (m : outcome A) (k : A -> outcome B) : outcome B :=
  match m with
  | Returns a => k a
  | Throws => Throws
  end.

Notation "x <~ m ; k" := (obind m (fun x => k))
  (at level 61, m at next level, right associativity).

(** [ToBoolean]. *)
Definition truthy (j : json) : bool :=
  match j with
  | JNull => false
  | JBool b => b
  | JNum shown => negb ((shown =? "0") || (shown =? "NaN"))
  | JStr s => negb (s =? "")
  | JArr _ => true
  | JObj _ => true
  end.

Definition ToBoolean (v : value) : bool :=
  match v with
  | None => false
  | Some j => truthy j
  end.

Fixpoint assoc (k : string) (fields : list (string * json)) : value :=
  match fields with
  | [] => None
  | (k', v) :: rest => if k =? k' then Some v else assoc k rest
  end.

(** [base.k] for the property names the page reads ([result], [status],
    [message], [content], [text], [file], [mime_type], [filename], [error]):
    none of them is inherited from a prototype, so only an own property of an
    object answers; reading a property of [null] or [undefined] is a
    [TypeError]. *)
Definition member (base : value) (k : string) : outcome value :=
  match base with
  | None => Throws
  | Some JNull => Throws
  | Some (JObj fields) => Returns (assoc k fields)
  | Some _ => Returns None
  end.

(** [base?.k] *)
Definition opt_member (base : value) (k : string) : value :=
  match base with
  | None => None
  | Some JNull => None
  | Some (JObj fields) => assoc k fields
  | Some _ => None
  end.

Notation "b ?. k" := (opt_member b k) (at level 39, left associativity).

(** [a || b] *)
Definition or_else (a : value) (b : json) : json :=
  match a with
  | Some j => if truthy j then j else b
  | None => b
  end.

(** [a === s] for a string literal [s]. *)
Definition strict_eq_string (a : value) (s : string) : bool :=
  match a with
  | Some (JStr t) => t =? s
  | _ => false
  end.

Definition Array_isArray (v : value) : bool :=
  match v with
  | Some (JArr _) => true
  | _ => false
  end.

Definition elements (v : value) : list json :=
  match v with
  | Some (JArr items) => items
  | _ => []
  end.

(** [ToString] of a parsed document.  An object without an own [toString]
    prints through [Object.prototype.toString]; an own [toString] is a JSON
    value, hence not callable, and [valueOf] then yields the object itself:
    a [TypeError].  An array prints its elements separated by commas, with
    [null] printed as the empty string. *)
Fixpoint ToString (j : json) : outcome string :=
  match j with
  | JNull => Returns "null"
  | JBool true => Returns "true"
  | JBool false => Returns "false"
  | JNum shown => Returns shown
  | JStr s => Returns s
  | JArr items =>
      let fix each (l : list json) : outcome (list string) :=
        match l with
        | [] => Returns []
        | x :: rest =>
            s <~ match x with JNull => Returns "" | _ => ToString x end;
            ss <~ each rest;
            Returns (s :: ss)
        end in
      ss <~ each items; Returns (concat "," ss)
  | JObj fields =>
      match assoc "toString" fields with
      | Some _ => Throws
      | None => Returns "[object Object]"
      end
  end.

(** The string of one element inside [Array.prototype.join]. *)
Definition element_string (v : value) : outcome string :=
  match v with
  | None => Returns ""
  | Some JNull => Returns ""
  | Some j => ToString j
  end.

Fixpoint mapM {A B} (f : A -> outcome B) (l : list A) : outcome (list B) :=
  match l with
  | [] => Returns []
  | x :: rest => y <~ f x; ys <~ mapM f rest; Returns (y :: ys)
  end.

(** [array.filter(f)] with a callback that may raise. *)
Fixpoint Array_filter {A} (f : A -> outcome bool) (l : list A) : outcome (list A) :=
  match l with
  | [] => Returns []
  | x :: rest =>
      keep <~ f x; kept <~ Array_filter f rest;
      Returns (if keep then x :: kept else kept)
  end.

(** [array.find(f)] *)
Fixpoint Array_find {A} (f : A -> outcome bool) (l : list A) : outcome (option A) :=
  match l with
  | [] => Returns None
  | x :: rest => hit <~ f x; if hit then Returns (Some x) else Array_find f rest
  end.

(** [array.join(sep)] *)
Definition Array_join (sep : string) (l : list value) : outcome string :=
  ss <~ mapM element_string l; Returns (concat sep ss).

End Js.
Import Js.

(** ** The page state and one subscription *)

(** [AgentMessage.type]: ['status' | 'final' | 'error']. *)
Inductive MessageType : Type := TStatus | TFinal | TError.

Record AgentMessage : Type := {
  id : string;
  content : string;
  timestamp : Z;
  type : MessageType
}.

(** What the environment hands to one transcript entry: the result of
    [crypto.randomUUID()] and of [new Date()] (milliseconds). *)
Record Fresh : Type := { uuid : string; date : Z }.

(** The three state cells of [LeadsPage] that the handlers write, and the
    subscription the effect creates for a non-empty [taskId]: whether
    [eventSource.close()] has been called on it, and the value of
    [isComplete] in the render whose effect created the handlers.  The
    handlers are closures of that render, and the effect depends on
    [taskId] only, so they keep reading that value.  [crashed] records
    that a render of the page throws: React then unmounts the page. *)
Record Consumer : Type := {
  messages : list AgentMessage;
  isComplete : bool;
  error : value;
  closed : bool;
  closure_isComplete : bool;
  crashed : bool
}.

(** [event.data] as the handlers see it. *)
Inductive EventData : Type :=
| NoData
| Unparseable (raw : string)
| Json (document : json).

(** [JSON.parse(event.data)]: [NoData] is a plain [Event] without a [data]
    property, [Unparseable raw] a string that is not JSON text (the empty
    string is one), [Json document] the text of [document]. *)
Definition JSON_parse (d : EventData) : outcome json :=
  match d with
  | Json document => Returns document
  | _ => Throws
  end.

(** [ToBoolean(event?.data)] *)
Definition has_data (d : EventData) : bool :=
  match d with
  | NoData => false
  | Unparseable raw => negb (raw =? "")
  | Json _ => true
  end.

(** *** Handler bodies: state updates that may be cut short by an exception *)

Definition Handler (A : Type) : Type := Consumer -> outcome A * Consumer.

Definition ret {A} (a : A) : Handler A := fun c => (Returns a, c).

Definition bind {A B} (m : Handler A) (k : A -> Handler B) : Handler B :=
  fun c =>
    match m c with
    | (Returns a, c') => k a c'
    | (Throws, c') => (Throws, c')
    end.

Definition lift {A} (o : outcome A) : Handler A := fun c => (o, c).

Notation "x <- m ;; k" := (bind m (fun x => k))
  (at level 62, m at next level, right associativity).
Notation "m ;;; k" := (bind m (fun _ => k))
  (at level 62, right associativity).

(** [setMessages(updater)] only queues the updater: React runs it when it
    renders, after the handlers of the event have returned.  An exception
    raised while the new entry is built therefore never reaches the
    listener's [catch]: the call returns, the listener goes on, the entry is
    not added, and the render throws. *)
Definition setMessages (f : list AgentMessage -> outcome (list AgentMessage)) : Handler unit :=
  fun c =>
    match f (messages c) with
    | Returns l =>
        (Returns tt,
         {| messages := l; isComplete := isComplete c; error := error c;
            closed := closed c; closure_isComplete := closure_isComplete c;
            crashed := crashed c |})
    | Throws =>
        (Returns tt,
         {| messages := messages c; isComplete := isComplete c; error := error c;
            closed := closed c; closure_isComplete := closure_isComplete c;
            crashed := true |})
    end.

Definition setIsComplete (b : bool) : Handler unit :=
  fun c =>
    (Returns tt,
     {| messages := messages c; isComplete := b; error := error c;
        closed := closed c; closure_isComplete := closure_isComplete c;
            crashed := crashed c |}).

Definition setError (e : value) : Handler unit :=
  fun c =>
    (Returns tt,
     {| messages := messages c; isComplete := isComplete c; error := e;
        closed := closed c; closure_isComplete := closure_isComplete c;
            crashed := crashed c |}).

(** [eventSource.close()] *)
Definition close : Handler unit :=
  fun c =>
    (Returns tt,
     {| messages := messages c; isComplete := isComplete c; error := error c;
        closed := true; closure_isComplete := closure_isComplete c;
        crashed := crashed c |}).

(** [try { body } catch (err) { console.error(...) }]: what was written
    before the exception stays written. *)
Definition try_catch (body : Handler unit) : Consumer -> Consumer :=
  fun c => snd (body c).

Definition when (b : bool) (m : Handler unit) : Handler unit :=
  if b then m else ret tt.

(** ** [extractTextContent] *)

Definition blank_line : string := String "010" (String "010" "").

Definition text_of (part : json) : outcome value := member (Some part) "text".

Definition extractTextContent (data : json) : option string :=
  let body : outcome (option string) :=
    result <~ member (Some data) "result";
    let content := result ?."status" ?."message" ?."content" in
    if negb (ToBoolean content) || negb (Array_isArray content) then Returns None
    else
      kept <~ Array_filter (fun part => t <~ text_of part; Returns (ToBoolean t))
                           (elements content);
      textParts <~ mapM text_of kept;
      joined <~ Array_join blank_line textParts;
      Returns (Some joined) in
  match body with
  | Returns r => r
  | Throws => None
  end.

(** [if (content)] on a [string | null]. *)
Definition nonempty (content : option string) : bool :=
  match content with
  | Some s => negb (s =? "")
  | None => false
  end.

Definition text_or_empty (content : option string) : string :=
  match content with
  | Some s => s
  | None => ""
  end.

(** [(prev) => [...prev, { id, content, timestamp, type }]] *)
Definition append (w : Fresh) (body : outcome string) (t : MessageType)
    (prev : list AgentMessage) : outcome (list AgentMessage) :=
  text <~ body;
  Returns (prev ++ [{| id := uuid w; content := text; timestamp := date w; type := t |}])%list.

(** ** The handlers the effect registers *)

Definition carries_file (part : json) : outcome bool :=
  f <~ member (Some part) "file"; Returns (ToBoolean f).

Definition is_json_artifact (a : json) : outcome bool :=
  f <~ member (Some a) "file";
  Returns (strict_eq_string (f ?."mime_type") "application/json").

(** [content?.filter(f)]: [undefined] on a nullish receiver, a [TypeError]
    on a receiver that is not an array ([filter] is not a function). *)
Definition optional_filter (receiver : value) (f : json -> outcome bool)
    : outcome (option (list json)) :=
  match receiver with
  | None => Returns None
  | Some JNull => Returns None
  | Some (JArr items) => kept <~ Array_filter f items; Returns (Some kept)
  | Some _ => Throws
  end.

(** [artifacts && artifacts.length > 0] *)
Definition some_artifacts (artifacts : option (list json)) : bool :=
  match artifacts with
  | Some (_ :: _) => true
  | _ => false
  end.

Definition announcement (jsonArtifact : json) : outcome string :=
  f <~ member (Some jsonArtifact) "file";
  name <~ ToString (or_else (f ?."filename") (JStr "leads artifact"));
  Returns ("✅ Lead generation complete! Generated " ++ name ++ ".").

Definition on_status_update (event : EventData) (w : Fresh) : Consumer -> Consumer :=
  try_catch (
    data <- lift (JSON_parse event) ;;
    let content := extractTextContent data in
    when (nonempty content)
      (setMessages (append w (Returns (text_or_empty content)) TStatus))).

Definition on_final_response (event : EventData) (w1 w2 : Fresh) : Consumer -> Consumer :=
  try_catch (
    data <- lift (JSON_parse event) ;;
    let content := extractTextContent data in
    when (nonempty content)
      (setMessages (append w1 (Returns (text_or_empty content)) TFinal)) ;;;
    result <- lift (member (Some data) "result") ;;
    artifacts <- lift (optional_filter (result ?."status" ?."message" ?."content")
                                       carries_file) ;;
    when (some_artifacts artifacts)
      (jsonArtifact <- lift (Array_find is_json_artifact
                               (match artifacts with Some l => l | None => [] end)) ;;
       match jsonArtifact with
       | Some a =>
           when (truthy a) (setMessages (append w2 (announcement a) TFinal))
       | None => ret tt
       end) ;;;
    setIsComplete true).

Definition on_error_event (event : EventData) (w : Fresh) : Consumer -> Consumer :=
  try_catch (
    if negb (has_data event) then ret tt
    else
      data <- lift (JSON_parse event) ;;
      e <- lift (member (Some data) "error") ;;
      let errorMsg := or_else e (JStr "An error occurred") in
      setError (Some errorMsg) ;;;
      setMessages (append w (s <~ ToString errorMsg; Returns ("❌ Error: " ++ s)) TError)).

(** [eventSource.onerror]: [isComplete] here is the closure's. *)
Definition onerror : Consumer -> Consumer :=
  fun c =>
    snd ((when (negb (closure_isComplete c))
            (setError (Some (JStr "Connection to server lost"))) ;;;
          close) c).

(** [eventSource.onopen] only logs. *)
Definition onopen : Consumer -> Consumer := fun c => c.

(** ** The effect: subscription, re-subscription, teardown *)

(** The state cells as [useState] initialises them. *)
Definition first_render : Consumer :=
  {| messages := []; isComplete := false; error := None;
     closed := false; closure_isComplete := false; crashed := false |}.

(** The effect body for a non-empty [taskId]: a new [EventSource], and
    handlers that close over the current render. *)
Definition subscribe (c : Consumer) : Consumer :=
  {| messages := messages c; isComplete := isComplete c; error := error c;
     closed := false; closure_isComplete := isComplete c; crashed := crashed c |}.

(** The function the effect returns. *)
Definition cleanup : Consumer -> Consumer := fun c => snd (close c).

Definition mount : Consumer := subscribe first_render.

(** What can happen to a mounted page: a message of the gateway named
    [status_update], [final_response] or [error]; a transport error; the
    opening of the stream; a change of [taskId]; the unmount. *)
Inductive Event : Type :=
| status_update (event : EventData) (w : Fresh)
| final_response (event : EventData) (w1 w2 : Fresh)
| error_event (event : EventData) (w : Fresh)
| transport_error
| opened
| taskId_changed
| unmounted.

(** The handlers the browser runs for an event, in the order of their
    registration.  An event of type [error] has two: the ['error'] listener
    and [eventSource.onerror].  A message of the gateway named [error] is
    of that type, and so is a transport error, which carries no data: the
    listener returns at once on it. *)
Definition dispatch (c : Consumer) (e : Event) : Consumer :=
  match e with
  | status_update event w => on_status_update event w c
  | final_response event w1 w2 => on_final_response event w1 w2 c
  | error_event event w => onerror (on_error_event event w c)
  | transport_error => onerror c
  | opened => onopen c
  | taskId_changed => subscribe (cleanup c)
  | unmounted => cleanup c
  end.

(** What React can put on the page as [{error}]: text, a number, nothing
    for a boolean or [null], the elements of an array; an object is not a
    valid child. *)
Fixpoint renderable (j : json) : bool :=
  match j with
  | JObj _ => false
  | JArr items => forallb renderable items
  | _ => true
  end.

Definition error_renders (e : value) : bool :=
  match e with
  | None => true
  | Some j => renderable j
  end.

(** The render that follows the handlers of an event.  It throws when a
    queued updater raises or when the error cell cannot be rendered; React
    then unmounts the page, which runs the effect's cleanup. *)
Definition rerender (c : Consumer) : Consumer :=
  if crashed c || negb (error_renders (error c))
  then {| messages := messages c; isComplete := isComplete c; error := error c;
          closed := true; closure_isComplete := closure_isComplete c;
          crashed := true |}
  else c.

Definition step (c : Consumer) (e : Event) : Consumer :=
  rerender (dispatch c e).

Definition run (c : Consumer) (events : list Event) : Consumer :=
  fold_left step events c.

(** ** Payloads of the declared shape *)

Definition payload (parts : list json) : json :=
  JObj [("result", JObj [("status", JObj [("message", JObj [("content", JArr parts)])])])].

(** [data.result?.status?.message?.content], when [data] is not [null]. *)
Definition content_list (data : json) : value :=
  Some data ?."result" ?."status" ?."message" ?."content".

(** A content entry as [StatusUpdateEvent] declares it: an object whose
    [text], when present, is a string. *)
Definition text_typed (part : json) : bool :=
  match part with
  | JObj fields =>
      match assoc "text" fields with
      | None => true
      | Some (JStr _) => true
      | Some _ => false
      end
  | _ => false
  end.

(** A content entry as [FinalResponseEvent] declares it: moreover its
    [file], when present, is an object with a string [filename] and a
    string [mime_type]. *)
Definition file_typed (part : json) : bool :=
  match Some part ?."file" with
  | None => true
  | Some (JObj f) =>
      match assoc "filename" f, assoc "mime_type" f with
      | Some (JStr _), Some (JStr _) => true
      | _, _ => false
      end
  | Some _ => false
  end.

Definition well_formed_part (part : json) : bool :=
  text_typed part && file_typed part.

(** The text an entry contributes: its [text] when that is a non-empty
    string. *)
Definition fragment (part : json) : list string :=
  match Some part ?."text" with
  | Some (JStr s) => if s =? "" then [] else [s]
  | _ => []
  end.

Definition fragments (parts : list json) : list string := flat_map fragment parts.

(** The entry declares a JSON file: [file.mime_type === 'application/json']. *)
Definition declares_json (part : json) : bool :=
  strict_eq_string (Some part ?."file" ?."mime_type") "application/json".

(** [hay.includes(needle)] *)
Fixpoint includes (needle hay : string) : bool :=
  match hay with
  | EmptyString => prefix needle hay
  | String _ rest => prefix needle hay || includes needle rest
  end.

Definition entry (w : Fresh) (text : string) (t : MessageType) : AgentMessage :=
  {| id := uuid w; content := text; timestamp := date w; type := t |}.

(** ** Facts about handler bodies *)

Section Preservation.

(** A relation between the state before and after that every primitive
    respects is respected by every handler built from them. *)
Variable R : Consumer -> Consumer -> Prop.
Hypothesis R_refl : forall c, R c c.
Hypothesis R_trans : forall a b c, R a b -> R b c -> R a c.

Definition respects {A} (m : Handler A) : Prop := forall c, R c (snd (m c)).

Lemma respects_ret {A} (a : A) : respects (ret a).
Proof. intro c. apply R_refl. Qed.

Lemma respects_lift {A} (o : outcome A) : respects (lift o).
Proof. intro c. apply R_refl. Qed.

Lemma respects_bind {A B} (m : Handler A) (k : A -> Handler B) :
  respects m -> (forall a, respects (k a)) -> respects (bind m k).
Proof.
  intros Hm Hk c. unfold bind.
  specialize (Hm c). destruct (m c) as [[a|] c']; simpl in *.
  - eapply R_trans; [exact Hm | apply Hk].
  - exact Hm.
Qed.

Lemma respects_when (b : bool) (m : Handler unit) :
  respects m -> respects (when b m).
Proof. intro Hm. destruct b; simpl; [exact Hm | apply respects_ret]. Qed.

Lemma respects_try_catch (body : Handler unit) :
  respects body -> forall c, R c (try_catch body c).
Proof. intros Hb c. apply Hb. Qed.

End Preservation.

(** The transcript after extends the transcript before. *)
Definition extends (c c' : Consumer) : Prop :=
  exists suffix, messages c' = (messages c ++ suffix)%list.

Lemma extends_refl c : extends c c.
Proof. exists []. now rewrite app_nil_r. Qed.

Lemma extends_trans a b c : extends a b -> extends b c -> extends a c.
Proof.
  intros [s1 H1] [s2 H2]. exists (s1 ++ s2)%list.
  now rewrite H2, H1, app_assoc.
Qed.

(** The completion flag is not lowered and the closure is untouched. *)
Definition keeps_flag (c c' : Consumer) : Prop :=
  (isComplete c = true -> isComplete c' = true) /\
  closure_isComplete c' = closure_isComplete c.

Lemma keeps_flag_refl c : keeps_flag c c.
Proof. split; auto. Qed.

Lemma keeps_flag_trans a b c : keeps_flag a b -> keeps_flag b c -> keeps_flag a c.
Proof. intros [H1 H2] [H3 H4]. split; [auto | congruence]. Qed.

(** Both at once: what every handler guarantees. *)
Definition evolves (c c' : Consumer) : Prop := extends c c' /\ keeps_flag c c'.

Lemma evolves_refl c : evolves c c.
Proof. split; [apply extends_refl | apply keeps_flag_refl]. Qed.

Lemma evolves_trans a b c : evolves a b -> evolves b c -> evolves a c.
Proof.
  intros [H1 H2] [H3 H4].
  split; [eapply extends_trans | eapply keeps_flag_trans]; eassumption.
Qed.

Lemma evolves_setMessages w body t :
  respects evolves (setMessages (append w body t)).
Proof.
  intro c. unfold setMessages, append.
  destruct body as [text|]; simpl.
  - split; [eexists; reflexivity | split; auto].
  - split; [exists []; simpl; now rewrite app_nil_r | split; auto].
Qed.

Lemma evolves_setIsComplete_true : respects evolves (setIsComplete true).
Proof. intro c. split; [exists []; simpl; now rewrite app_nil_r | split; auto]. Qed.

Lemma evolves_setError e : respects evolves (setError e).
Proof. intro c. split; [exists []; simpl; now rewrite app_nil_r | split; auto]. Qed.

Lemma evolves_close : respects evolves close.
Proof. intro c. split; [exists []; simpl; now rewrite app_nil_r | split; auto]. Qed.

Create HintDb handlers.
#[local] Hint Resolve evolves_refl evolves_trans evolves_setMessages
  evolves_setIsComplete_true evolves_setError evolves_close : handlers.

Ltac handler_body :=
  repeat first
    [ apply (respects_bind evolves evolves_trans); [ | intro ]
    | apply (respects_when evolves evolves_refl)
    | apply (respects_ret evolves evolves_refl)
    | apply (respects_lift evolves evolves_refl)
    | solve [auto with handlers]
    | progress cbv zeta ].

Lemma on_status_update_evolves event w c : evolves c (on_status_update event w c).
Proof.
  unfold on_status_update. apply (respects_try_catch evolves). handler_body.
Qed.

Lemma on_final_response_evolves event w1 w2 c :
  evolves c (on_final_response event w1 w2 c).
Proof.
  unfold on_final_response. apply (respects_try_catch evolves). handler_body.
  match goal with |- context [match ?j with Some _ => _ | None => _ end] =>
    destruct j end; handler_body.
Qed.

Lemma on_error_event_evolves event w c : evolves c (on_error_event event w c).
Proof.
  unfold on_error_event. apply (respects_try_catch evolves).
  destruct (negb (has_data event)); handler_body.
Qed.

Lemma onerror_evolves c : evolves c (onerror c).
Proof.
  unfold onerror.
  destruct (closure_isComplete c) eqn:E; simpl;
    (split; [exists []; simpl; now rewrite app_nil_r | split; auto]).
Qed.

(** ** What the handlers compute on payloads of the declared shape *)

Definition is_object (j : json) : bool :=
  match j with
  | JObj _ => true
  | _ => false
  end.

(** [ToBoolean(part.file)] *)
Definition has_file (part : json) : bool := ToBoolean (Some part ?."file").

(** The name the announcement prints for a typed artifact:
    [file.filename || 'leads artifact']. *)
Definition artifact_name (a : json) : string :=
  match Some a ?."file" ?."filename" with
  | Some (JStr s) => if s =? "" then "leads artifact" else s
  | _ => "leads artifact"
  end.

(** The state with one more transcript entry, and with the flag raised. *)
Definition push (m : AgentMessage) (c : Consumer) : Consumer :=
  {| messages := messages c ++ [m]; isComplete := isComplete c; error := error c;
     closed := closed c; closure_isComplete := closure_isComplete c;
            crashed := crashed c |}.

Definition completed (c : Consumer) : Consumer :=
  {| messages := messages c; isComplete := true; error := error c;
     closed := closed c; closure_isComplete := closure_isComplete c;
            crashed := crashed c |}.

Lemma Array_filter_total {A} (f : A -> outcome bool) (g : A -> bool) (l : list A) :
  Forall (fun x => f x = Returns (g x)) l ->
  Array_filter f l = Returns (filter g l).
Proof.
  induction 1 as [|x l Hx _ IH]; simpl; [reflexivity |].
  rewrite Hx, IH. reflexivity.
Qed.

Lemma mapM_total {A B} (f : A -> outcome B) (g : A -> B) (l : list A) :
  Forall (fun x => f x = Returns (g x)) l ->
  mapM f l = Returns (map g l).
Proof.
  induction 1 as [|x l Hx _ IH]; simpl; [reflexivity |].
  rewrite Hx, IH. reflexivity.
Qed.

Lemma Array_find_total {A} (f : A -> outcome bool) (g : A -> bool) (l : list A) :
  Forall (fun x => f x = Returns (g x)) l ->
  Array_find f l = Returns (find g l).
Proof.
  induction 1 as [|x l Hx _ IH]; simpl; [reflexivity |].
  rewrite Hx. simpl. destruct (g x); [reflexivity | exact IH].
Qed.

Lemma member_object part k :
  is_object part = true -> member (Some part) k = Returns (opt_member (Some part) k).
Proof. destruct part; simpl; intro H; try discriminate H; reflexivity. Qed.

Lemma text_typed_object part : text_typed part = true -> is_object part = true.
Proof. destruct part; simpl; intro H; try discriminate H; reflexivity. Qed.

Lemma well_formed_object part : well_formed_part part = true -> is_object part = true.
Proof.
  unfold well_formed_part. intro H.
  apply andb_true_iff in H as [H _]. now apply text_typed_object.
Qed.

Lemma content_list_member data v :
  content_list data = Some v ->
  member (Some data) "result" = Returns (Some data ?."result").
Proof.
  destruct data; simpl; intro H; try discriminate H; reflexivity.
Qed.

Lemma forallb_Forall_impl {A} (p : A -> bool) (P : A -> Prop) (l : list A) :
  (forall x, p x = true -> P x) -> forallb p l = true -> Forall P l.
Proof.
  intros Hp H. apply Forall_forall. intros x Hx.
  apply Hp. rewrite forallb_forall in H. now apply H.
Qed.

Lemma text_typed_cases part :
  text_typed part = true ->
  Some part ?."text" = None \/ exists s, Some part ?."text" = Some (JStr s).
Proof.
  destruct part as [| | | | |fields]; simpl; intro H; try discriminate H.
  destruct (assoc "text" fields) as [[| | |s| |]|]; try discriminate H; eauto.
Qed.

(** The strings that [join] receives from typed entries are the fragments. *)
Lemma joined_fragments parts :
  forallb text_typed parts = true ->
  mapM element_string
       (map (fun p => Some p ?."text")
            (filter (fun p => ToBoolean (Some p ?."text")) parts))
    = Returns (fragments parts).
Proof.
  induction parts as [|p parts IH]; [reflexivity |].
  cbn [forallb]. intro H. apply andb_true_iff in H as [Hp Hrest].
  specialize (IH Hrest). unfold fragments in *. cbn [filter flat_map].
  unfold fragment at 1.
  destruct (text_typed_cases p Hp) as [E | [s E]]; rewrite E; cbn [ToBoolean truthy].
  - exact IH.
  - destruct (s =? "") eqn:Es; cbn [negb map mapM app].
    + exact IH.
    + rewrite E. cbn [element_string ToString obind]. rewrite IH. reflexivity.
Qed.

Lemma extractTextContent_typed data parts :
  content_list data = Some (JArr parts) ->
  forallb text_typed parts = true ->
  extractTextContent data = Some (concat blank_line (fragments parts)).
Proof.
  intros Hc Ht. unfold extractTextContent.
  rewrite (content_list_member _ _ Hc). cbn [obind]. cbv zeta.
  change (Some data ?."result" ?."status" ?."message" ?."content")
    with (content_list data).
  rewrite Hc. cbn [ToBoolean truthy Array_isArray negb orb elements].
  rewrite (Array_filter_total _ (fun p => ToBoolean (Some p ?."text"))).
  2:{ eapply forallb_Forall_impl; [| exact Ht].
      intros x Hx. unfold text_of.
      rewrite member_object by now apply text_typed_object. reflexivity. }
  cbn [obind].
  rewrite (mapM_total _ (fun p => Some p ?."text")).
  2:{ apply Forall_forall. intros x Hx. apply filter_In in Hx as [Hx _].
      rewrite forallb_forall in Ht. unfold text_of.
      rewrite member_object by (apply text_typed_object; auto). reflexivity. }
  cbn [obind]. unfold Array_join. rewrite joined_fragments by exact Ht. reflexivity.
Qed.

Lemma fragments_not_empty_strings parts : Forall (fun s => s <> "") (fragments parts).
Proof.
  unfold fragments. apply Forall_flat_map, Forall_forall. intros p _.
  unfold fragment.
  destruct (Some p ?."text") as [[| | |s| |]|]; try constructor.
  destruct (s =? "") eqn:E; constructor; [| constructor].
  intros ->. discriminate E.
Qed.

Lemma concat_not_empty sep l :
  l <> [] -> Forall (fun s => s <> "") l -> (concat sep l =? "") = false.
Proof.
  intros Hne Hall. destruct l as [|s l]; [contradiction |].
  inversion_clear Hall as [|? ? Hs _].
  destruct s as [|a s]; [contradiction |].
  destruct l; reflexivity.
Qed.

Lemma joined_fragments_nonempty parts :
  fragments parts <> [] ->
  nonempty (Some (concat blank_line (fragments parts))) = true.
Proof.
  intro H. simpl. rewrite concat_not_empty; auto using fragments_not_empty_strings.
Qed.

Lemma on_status_update_typed data parts w c :
  content_list data = Some (JArr parts) ->
  forallb text_typed parts = true ->
  on_status_update (Json data) w c =
    if nonempty (Some (concat blank_line (fragments parts)))
    then push (entry w (concat blank_line (fragments parts)) TStatus) c
    else c.
Proof.
  intros Hc Ht. unfold on_status_update, try_catch, bind, lift. simpl.
  rewrite (extractTextContent_typed _ _ Hc Ht). cbn [nonempty].
  destruct (negb (concat blank_line (fragments parts) =? "")); reflexivity.
Qed.

(** The state with further transcript entries. *)
Definition extend (l : list AgentMessage) (c : Consumer) : Consumer :=
  {| messages := messages c ++ l; isComplete := isComplete c; error := error c;
     closed := closed c; closure_isComplete := closure_isComplete c;
            crashed := crashed c |}.

Definition announcement_text (a : json) : string :=
  "✅ Lead generation complete! Generated " ++ artifact_name a ++ ".".

(** The entries a [final_response] of the declared shape adds: the text
    entry when there is text, then the announcement of the first JSON file. *)
Definition final_entries (w1 w2 : Fresh) (data : json) (parts : list json)
    : list AgentMessage :=
  ((if nonempty (extractTextContent data)
    then [entry w1 (text_or_empty (extractTextContent data)) TFinal]
    else [])
   ++
   match find declares_json parts with
   | Some a => [entry w2 (announcement_text a) TFinal]
   | None => []
   end)%list.

Lemma declares_json_has_file a : declares_json a = true -> has_file a = true.
Proof.
  unfold declares_json, has_file.
  destruct (Some a ?."file") as [[| | | | |f]|]; simpl; intro H;
    try discriminate H; reflexivity.
Qed.

Lemma find_declares_json_filter parts :
  find declares_json (filter has_file parts) = find declares_json parts.
Proof.
  induction parts as [|p parts IH]; [reflexivity |].
  cbn [filter find].
  destruct (declares_json p) eqn:D.
  - rewrite (declares_json_has_file _ D). cbn [find]. now rewrite D.
  - destruct (has_file p); cbn [find]; [rewrite D |]; exact IH.
Qed.

Lemma announcement_typed a :
  well_formed_part a = true ->
  declares_json a = true ->
  announcement a = Returns (announcement_text a).
Proof.
  intros Hwf Hd. unfold announcement, announcement_text, artifact_name.
  rewrite member_object by now apply well_formed_object.
  cbn [obind].
  unfold well_formed_part in Hwf. apply andb_true_iff in Hwf as [_ Hf].
  unfold file_typed in Hf. unfold declares_json in Hd.
  destruct (Some a ?."file") as [[| | | | |f]|]; try discriminate Hd; try discriminate Hf.
  cbn [opt_member] in *.
  destruct (assoc "filename" f) as [[| | |s| |]|]; try discriminate Hf.
  cbn [or_else truthy].
  destruct (s =? ""); reflexivity.
Qed.

Lemma on_final_response_well_formed data parts w1 w2 c :
  content_list data = Some (JArr parts) ->
  forallb well_formed_part parts = true ->
  on_final_response (Json data) w1 w2 c
    = completed (extend (final_entries w1 w2 data parts) c).
Proof.
  intros Hc Hwf.
  assert (Hobj : Forall (fun p => is_object p = true) parts)
    by (eapply forallb_Forall_impl; [apply well_formed_object | exact Hwf]).
  unfold on_final_response, try_catch, bind, lift. cbn [JSON_parse].
  set (c1 := when (nonempty (extractTextContent data)) _ c).
  assert (Hc1 : c1 = (Returns tt,
                      extend (if nonempty (extractTextContent data)
                              then [entry w1 (text_or_empty (extractTextContent data)) TFinal]
                              else []) c)).
  { subst c1. destruct (nonempty (extractTextContent data)); cbn.
    - reflexivity.
    - unfold extend. rewrite app_nil_r. destruct c; reflexivity. }
  rewrite Hc1. clear c1 Hc1.
  rewrite (content_list_member _ _ Hc).
  change (Some data ?."result" ?."status" ?."message" ?."content")
    with (content_list data).
  rewrite Hc. cbn [optional_filter].
  rewrite (Array_filter_total _ has_file).
  2:{ eapply Forall_impl; [| exact Hobj]. intros p Hp. unfold carries_file.
      rewrite member_object by exact Hp. reflexivity. }
  cbn [obind].
  unfold final_entries. rewrite <- (find_declares_json_filter parts).
  assert (Hsub : Forall (fun p => well_formed_part p = true) (filter has_file parts)).
  { apply Forall_forall. intros p Hp. apply filter_In in Hp as [Hp _].
    rewrite forallb_forall in Hwf. auto. }
  destruct (filter has_file parts) as [|a0 arts] eqn:Earts.
  - cbn. unfold completed, extend. cbn. rewrite app_nil_r. reflexivity.
  - cbn [some_artifacts when].
    rewrite (Array_find_total _ declares_json).
    2:{ eapply Forall_impl; [| exact Hsub]. intros p Hp. unfold is_json_artifact.
        rewrite member_object by now apply well_formed_object. reflexivity. }
    destruct (find declares_json (a0 :: arts)) as [a|] eqn:Efind.
    + destruct (find_some _ _ Efind) as [Hin Hd].
      rewrite Forall_forall in Hsub. pose proof (Hsub a Hin) as Ha.
      pose proof (well_formed_object a Ha) as Hao.
      destruct a; try discriminate Hao.
      cbn [truthy when]. unfold setMessages, append.
      rewrite (announcement_typed _ Ha Hd).
      cbn. unfold completed, extend. cbn. rewrite <- app_assoc. reflexivity.
    + cbn. unfold completed, extend. cbn. rewrite app_nil_r. reflexivity.
Qed.

Lemma bind_returns {A B} (m : Handler A) (k : A -> Handler B) c a c' :
  m c = (Returns a, c') -> bind m k c = k a c'.
Proof. intro H. unfold bind. now rewrite H. Qed.

Lemma on_final_response_text_first data parts w1 w2 c :
  content_list data = Some (JArr parts) ->
  forallb text_typed parts = true ->
  fragments parts <> [] ->
  exists rest,
    messages (on_final_response (Json data) w1 w2 c)
      = (messages c ++ entry w1 (concat blank_line (fragments parts)) TFinal :: rest)%list.
Proof.
  intros Hc Ht Hne.
  unfold on_final_response, try_catch.
  rewrite (bind_returns _ _ c data c eq_refl).
  cbv zeta. rewrite (extractTextContent_typed _ _ Hc Ht).
  rewrite (joined_fragments_nonempty _ Hne).
  rewrite (bind_returns _ _ c tt
             (push (entry w1 (concat blank_line (fragments parts)) TFinal) c) eq_refl).
  match goal with
  | |- context [snd (?m (push ?e c))] =>
      assert (He : respects evolves m)
        by (handler_body;
            match goal with
            | |- context [match ?j with Some _ => _ | None => _ end] => destruct j
            end; handler_body);
      destruct (He (push e c)) as [[suffix Hs] _]
  end.
  exists suffix. rewrite Hs. cbn [push messages]. rewrite <- app_assoc. reflexivity.
Qed.


(** [content == null] *)
Definition nullish (v : value) : bool :=
  match v with
  | None => true
  | Some JNull => true
  | Some _ => false
  end.


(** The text entry of a typed payload, if it has any fragment. *)
Definition text_entries (w : Fresh) (parts : list json) (t : MessageType)
    : list AgentMessage :=
  match fragments parts with
  | [] => []
  | _ :: _ => [entry w (concat blank_line (fragments parts)) t]
  end.

(** A [status_update] of the declared shape with at least one non-empty
    text, and the text it shows. *)
Definition narrates (event : EventData) : bool :=
  match event with
  | Json data =>
      match content_list data with
      | Some (JArr parts) =>
          forallb text_typed parts
          && match fragments parts with [] => false | _ :: _ => true end
      | _ => false
      end
  | _ => false
  end.

Definition status_text (event : EventData) : string :=
  match event with
  | Json data => concat blank_line (fragments (elements (content_list data)))
  | _ => ""
  end.



(** The specification's reading of a text fragment: the entry carries a
    [text] field, whatever its value. *)
Definition has_text_field (part : json) : bool :=
  match Some part ?."text" with
  | Some _ => true
  | None => false
  end.

(** The specification's reading of the extraction: the texts of the
    entries on which a [text] field is present. *)
Definition present_texts (parts : list json) : list string :=
  flat_map (fun part => match Some part ?."text" with
                        | Some (JStr s) => [s]
                        | _ => []
                        end) parts.

(** The specification's artifact: an entry whose [file.mime_type] is
    [application/json] and whose [file.filename] is [leads.json]. *)
Definition is_leads_json (part : json) : bool :=
  declares_json part
  && strict_eq_string (Some part ?."file" ?."filename") "leads.json".

Lemma well_formed_text_typed parts :
  forallb well_formed_part parts = true -> forallb text_typed parts = true.
Proof.
  intro H. apply forallb_forall. intros p Hp.
  rewrite forallb_forall in H. specialize (H p Hp).
  unfold well_formed_part in H. now apply andb_true_iff in H as [H _].
Qed.

Lemma final_entries_typed w1 w2 data parts :
  content_list data = Some (JArr parts) ->
  forallb text_typed parts = true ->
  final_entries w1 w2 data parts
    = (text_entries w1 parts TFinal
       ++ match find declares_json parts with
          | Some a => [entry w2 (announcement_text a) TFinal]
          | None => []
          end)%list.
Proof.
  intros Hc Ht. unfold final_entries, text_entries.
  rewrite (extractTextContent_typed _ _ Hc Ht).
  destruct (fragments parts) as [|s l] eqn:E; [reflexivity |].
  rewrite <- E. rewrite joined_fragments_nonempty by (rewrite E; discriminate).
  reflexivity.
Qed.

Lemma on_status_update_narrates event w c :
  narrates event = true ->
  on_status_update event w c = push (entry w (status_text event) TStatus) c.
Proof.
  destruct event as [| |data]; try discriminate. cbn [narrates status_text].
  destruct (content_list data) as [[| | | |parts|]|] eqn:Hc; try discriminate.
  intro H. apply andb_true_iff in H as [Ht Hne].
  rewrite (on_status_update_typed _ _ _ _ Hc Ht). cbn [elements].
  rewrite joined_fragments_nonempty; [reflexivity |].
  destruct (fragments parts); [discriminate Hne | discriminate].
Qed.






(** ** Facts about steps and runs *)

Lemma rerender_cells c :
  messages (rerender c) = messages c /\
  isComplete (rerender c) = isComplete c /\
  error (rerender c) = error c /\
  closure_isComplete (rerender c) = closure_isComplete c.
Proof.
  unfold rerender. destruct (crashed c || negb (error_renders (error c))); cbn; auto.
Qed.


Lemma rerender_closes c : closed c = true -> closed (rerender c) = true.
Proof.
  unfold rerender. destruct (crashed c || negb (error_renders (error c))); cbn; auto.
Qed.

Lemma rerender_evolves c : evolves c (rerender c).
Proof.
  destruct (rerender_cells c) as [Hm [Hf [_ Hc]]].
  split; [exists []; now rewrite app_nil_r | split; [now rewrite Hf | exact Hc]].
Qed.

Lemma error_dispatch_evolves event w c : evolves c (onerror (on_error_event event w c)).
Proof.
  eapply evolves_trans; [apply on_error_event_evolves | apply onerror_evolves].
Qed.

Lemma dispatch_extends c e : extends c (dispatch c e).
Proof.
  destruct e; simpl;
    try (apply on_status_update_evolves || apply on_final_response_evolves
         || apply error_dispatch_evolves || apply onerror_evolves);
    exists []; simpl; now rewrite app_nil_r.
Qed.


Lemma step_extends c e : extends c (step c e).
Proof.
  unfold step. eapply extends_trans; [apply dispatch_extends | apply rerender_evolves].
Qed.


Lemma run_app c before after : run c (before ++ after) = run (run c before) after.
Proof. apply fold_left_app. Qed.

Lemma run_extends events : forall c, extends c (run c events).
Proof.
  induction events as [|e events IH]; intro c; simpl.
  - apply extends_refl.
  - eapply extends_trans; [apply step_extends | apply IH].
Qed.


(** The closure never saw a flag that the page does not have. *)
Definition closure_coherent (c : Consumer) : Prop :=
  closure_isComplete c = true -> isComplete c = true.

Lemma dispatch_coherent c e : closure_coherent c -> closure_coherent (dispatch c e).
Proof.
  unfold closure_coherent. intro H.
  destruct e; simpl; auto;
    match goal with
    | |- context [on_status_update ?ev ?w c] =>
        destruct (on_status_update_evolves ev w c) as [_ [K1 K2]]
    | |- context [on_final_response ?ev ?w ?w' c] =>
        destruct (on_final_response_evolves ev w w' c) as [_ [K1 K2]]
    | |- context [on_error_event ?ev ?w c] =>
        destruct (error_dispatch_evolves ev w c) as [_ [K1 K2]]
    | |- context [onerror c] =>
        destruct (onerror_evolves c) as [_ [K1 K2]]
    end; rewrite K2; auto.
Qed.

Lemma step_coherent c e : closure_coherent c -> closure_coherent (step c e).
Proof.
  intro H. apply (dispatch_coherent c e) in H. unfold closure_coherent, step in *.
  destruct (rerender_cells (dispatch c e)) as [_ [-> [_ ->]]]. exact H.
Qed.

Lemma run_coherent events : forall c, closure_coherent c -> closure_coherent (run c events).
Proof.
  induction events as [|e events IH]; intros c H; simpl; auto.
  apply IH, step_coherent, H.
Qed.

Lemma mount_coherent : closure_coherent mount.
Proof. intro H. discriminate H. Qed.

(** Sample environment answers for the examples below. *)
Definition fresh1 : Fresh := {| uuid := "3f0c1a52-0001"; date := 1700000000001 |}.
Definition fresh2 : Fresh := {| uuid := "3f0c1a52-0002"; date := 1700000000002 |}.
Definition fresh3 : Fresh := {| uuid := "3f0c1a52-0003"; date := 1700000000003 |}.

Definition text_part (s : string) : json := JObj [("text", JStr s)].

Definition file_part (filename mime_type : string) : json :=
  JObj [("file", JObj [("filename", JStr filename); ("mime_type", JStr mime_type)])].

(** ** The transcript is append-only *)

(** C8.  Every step (each of the four handlers, and the life-cycle steps)
    leaves the transcript as it was or extends it at the end, so the
    transcript at any point of a run is a prefix of the transcript at any
    later point. *)
Theorem transcript_append_only :
  (forall c e, exists suffix, messages (step c e) = (messages c ++ suffix)%list) /\
  (forall c before after,
      exists suffix,
        messages (run c (before ++ after)) = (messages (run c before) ++ suffix)%list).
Proof.
  split.
  - intros c e. apply step_extends.
  - intros c before after. rewrite run_app. apply run_extends.
Qed.

(** ** Transport errors *)

Lemma onerror_closes c : closed (onerror c) = true.
Proof. unfold onerror. destruct (closure_isComplete c); reflexivity. Qed.

Lemma onerror_reports c :
  closure_isComplete c = false ->
  error (onerror c) = Some (JStr "Connection to server lost").
Proof. intro H. unfold onerror. now rewrite H. Qed.

Lemma onerror_keeps_messages c : messages (onerror c) = messages c.
Proof. unfold onerror. destruct (closure_isComplete c); reflexivity. Qed.

Lemma onerror_silent c :
  closure_isComplete c = true -> error (onerror c) = error c.
Proof. intro H. unfold onerror. now rewrite H. Qed.

(** C6.  In every run from the mount, a transport error that arrives while
    the completion flag is false stores the message
    "Connection to server lost" in the error slot and closes the stream. *)
Theorem transport_error_before_completion :
  forall events,
    isComplete (run mount events) = false ->
    error (step (run mount events) transport_error)
      = Some (JStr "Connection to server lost") /\
    closed (step (run mount events) transport_error) = true.
Proof.
  intros events Hflag.
  pose proof (run_coherent events mount mount_coherent) as Hco.
  unfold closure_coherent in Hco.
  unfold step. cbn [dispatch].
  destruct (rerender_cells (onerror (run mount events))) as [_ [_ [-> _]]].
  split; [| apply rerender_closes, onerror_closes].
  apply onerror_reports.
  destruct (closure_isComplete (run mount events)) eqn:E; [| reflexivity].
  rewrite Hco in Hflag; [discriminate | reflexivity].
Qed.

Lemma transport_error_before_completion_witness :
  isComplete (run mount [status_update (Json (payload [text_part "Searching"])) fresh1]) = false /\
  error (step (run mount [status_update (Json (payload [text_part "Searching"])) fresh1])
           transport_error)
    = Some (JStr "Connection to server lost") /\
  closed (step (run mount [status_update (Json (payload [text_part "Searching"])) fresh1])
            transport_error) = true.
Proof.
  split; [reflexivity |].
  apply (transport_error_before_completion
           [status_update (Json (payload [text_part "Searching"])) fresh1]).
  reflexivity.
Defined.

(** Within one subscription the closure keeps the flag it was created
    with, whatever the page has learnt since. *)
Lemma closure_fixed_within_subscription events :
  forall c,
    ~ In taskId_changed events ->
    closure_isComplete (run c events) = closure_isComplete c.
Proof.
  induction events as [|e events IH]; intros c Hno; simpl; auto.
  rewrite IH by (intro H; apply Hno; now right).
  unfold step. destruct (rerender_cells (dispatch c e)) as [_ [_ [_ ->]]].
  destruct e; simpl; auto;
    try (apply on_status_update_evolves || apply on_final_response_evolves
         || apply error_dispatch_evolves || apply onerror_evolves).
  exfalso. apply Hno. now left.
Qed.

(** Hence, within the subscription made at the mount, [onerror] reports a
    lost connection whatever has been received before. *)
Lemma onerror_reports_within_first_subscription events :
  ~ In taskId_changed events ->
  error (step (run mount events) transport_error)
    = Some (JStr "Connection to server lost").
Proof.
  intro Hno. unfold step. cbn [dispatch].
  destruct (rerender_cells (onerror (run mount events))) as [_ [_ [-> _]]].
  apply onerror_reports.
  now rewrite (closure_fixed_within_subscription events mount Hno).
Qed.

(** C2.  The run: mount, a [final_response] carrying the text "Done", then
    a transport error.  The completion flag is true and the error slot
    empty when the transport error arrives, and [onerror] still stores
    "Connection to server lost": its [isComplete] is the closure's. *)
Theorem transport_error_after_completion_sets_error :
  isComplete (run mount [final_response (Json (payload [text_part "Done"])) fresh1 fresh2]) = true /\
  error (run mount [final_response (Json (payload [text_part "Done"])) fresh1 fresh2]) = None /\
  error (run mount [final_response (Json (payload [text_part "Done"])) fresh1 fresh2;
                    transport_error])
    = Some (JStr "Connection to server lost").
Proof. split; [reflexivity | split; reflexivity]. Qed.

(** ** Events whose payload does not parse *)

(** Each of the three listeners, taken alone, ignores an event whose data
    [JSON.parse] rejects. *)
Lemma listeners_ignore_unparseable event :
  JSON_parse event = Throws ->
  forall w w' c,
    on_status_update event w c = c /\
    on_final_response event w w' c = c /\
    on_error_event event w c = c.
Proof.
  intros Hparse w w' c. repeat split.
  - unfold on_status_update, try_catch, bind, lift. now rewrite Hparse.
  - unfold on_final_response, try_catch, bind, lift. now rewrite Hparse.
  - unfold on_error_event, try_catch.
    destruct (negb (has_data event)); [reflexivity |].
    unfold bind, lift. now rewrite Hparse.
Qed.

(** C5.  An event named [error] whose data is not JSON, on a freshly
    mounted page.  The ['error'] listener ignores it, as the other two
    listeners ignore theirs; but the event is of type [error], so
    [eventSource.onerror] runs too: the error slot receives
    "Connection to server lost" and the stream is closed. *)
Theorem unparseable_error_event_closes_stream :
  JSON_parse (Unparseable "<html>") = Throws /\
  on_error_event (Unparseable "<html>") fresh1 mount = mount /\
  messages (step mount (error_event (Unparseable "<html>") fresh1)) = messages mount /\
  error mount = None /\
  error (step mount (error_event (Unparseable "<html>") fresh1))
    = Some (JStr "Connection to server lost") /\
  closed mount = false /\
  closed (step mount (error_event (Unparseable "<html>") fresh1)) = true.
Proof. repeat (split; [reflexivity |]). reflexivity. Qed.

(** C10.  The [error] listener returns at once on an event whose [data] is
    absent or the empty string: nothing is written and the stream is not
    closed. *)
Theorem error_event_without_data_is_noop :
  forall event,
    event = NoData \/ event = Unparseable "" ->
    forall w c, on_error_event event w c = c.
Proof.
  intros event [-> | ->] w c; reflexivity.
Qed.

Lemma error_event_without_data_is_noop_witness :
  on_error_event NoData fresh1 mount = mount.
Proof.
  apply (error_event_without_data_is_noop NoData); left; reflexivity.
Defined.

(** ** Status updates *)

(** C3 fails as stated: a [status_update] of the declared shape whose only
    entry carries the text field [""] adds nothing to the transcript. *)
Lemma status_update_empty_text_adds_nothing :
  forallb text_typed [text_part ""] = true /\
  existsb has_text_field [text_part ""] = true /\
  messages (run mount [status_update (Json (payload [text_part ""])) fresh1])
    = messages mount.
Proof. split; [reflexivity | split; reflexivity]. Qed.

(** C3, amended.  For every sequence of [status_update] events of the
    declared shape, each with at least one entry whose [text] is a
    non-empty string, the run appends exactly one entry per event, in
    arrival order, each of kind [status] and holding the event's text. *)
Theorem status_updates_grow_transcript :
  forall (arrivals : list (EventData * Fresh)) c,
    Forall (fun a => narrates (fst a) = true) arrivals ->
    messages (run c (map (fun a => status_update (fst a) (snd a)) arrivals))
      = (messages c
         ++ map (fun a => entry (snd a) (status_text (fst a)) TStatus) arrivals)%list /\
    List.length (messages (run c (map (fun a => status_update (fst a) (snd a)) arrivals)))
      = List.length (messages c) + List.length arrivals.
Proof.
  intros arrivals c Hall.
  assert (Heq : messages (run c (map (fun a => status_update (fst a) (snd a)) arrivals))
                = (messages c
                   ++ map (fun a => entry (snd a) (status_text (fst a)) TStatus)
                          arrivals)%list).
  { revert c. induction Hall as [|a arrivals Ha _ IH]; intro c.
    - simpl. now rewrite app_nil_r.
    - cbn [map run fold_left].
      fold (run (step c (status_update (fst a) (snd a)))
                (map (fun a => status_update (fst a) (snd a)) arrivals)).
      rewrite IH. unfold step. cbn [dispatch].
      destruct (rerender_cells (on_status_update (fst a) (snd a) c)) as [-> _].
      rewrite (on_status_update_narrates _ _ _ Ha).
      cbn [push messages]. now rewrite <- app_assoc. }
  split; [exact Heq |].
  rewrite Heq, length_app, length_map. reflexivity.
Qed.

Lemma status_updates_grow_transcript_witness :
  messages (run mount
              (map (fun a => status_update (fst a) (snd a))
                   [(Json (payload [text_part "Searching"; text_part "Ottawa"]), fresh1);
                    (Json (payload [file_part "notes.txt" "text/plain";
                                    text_part "Auditing"]), fresh2)]))
    = (messages mount
       ++ map (fun a => entry (snd a) (status_text (fst a)) TStatus)
              [(Json (payload [text_part "Searching"; text_part "Ottawa"]), fresh1);
               (Json (payload [file_part "notes.txt" "text/plain";
                               text_part "Auditing"]), fresh2)])%list /\
  List.length (messages (run mount
              (map (fun a => status_update (fst a) (snd a))
                   [(Json (payload [text_part "Searching"; text_part "Ottawa"]), fresh1);
                    (Json (payload [file_part "notes.txt" "text/plain";
                                    text_part "Auditing"]), fresh2)])))
    = List.length (messages mount) + 2.
Proof.
  apply (status_updates_grow_transcript
           [(Json (payload [text_part "Searching"; text_part "Ottawa"]), fresh1);
            (Json (payload [file_part "notes.txt" "text/plain";
                            text_part "Auditing"]), fresh2)] mount).
  repeat constructor.
Defined.

(** ** Text extraction *)

(** C4 fails as stated: both entries carry a [text] field, yet the
    extraction keeps the second only (the texts present, joined, would
    start with a blank line); and an entry whose [text] field is the empty
    string counts as a fragment found, yet no transcript entry is made. *)
Lemma empty_text_field_not_extracted :
  map has_text_field [text_part ""; text_part "a"] = [true; true] /\
  extractTextContent (payload [text_part ""; text_part "a"]) = Some "a" /\
  extractTextContent (payload [text_part ""; text_part "a"])
    <> Some (concat blank_line (present_texts [text_part ""; text_part "a"])) /\
  present_texts [text_part ""] <> [] /\
  messages (on_status_update (Json (payload [text_part ""])) fresh1 mount) = [].
Proof.
  split; [reflexivity |]. split; [reflexivity |].
  split; [intro H; discriminate H |]. split; [intro H; discriminate H | reflexivity].
Qed.

(** C4, amended.  On a payload whose content list holds entries of the
    declared shape, the extraction keeps exactly the entries whose [text]
    is a non-empty string (entries without [text], such as file references,
    and empty texts contribute nothing) and joins them with a blank line;
    when there is at least one, the join is the content of one new
    transcript entry: the only one a [status_update] adds, the first one a
    [final_response] adds. *)
Theorem text_extraction_joins_fragments :
  forall data parts,
    content_list data = Some (JArr parts) ->
    forallb text_typed parts = true ->
    extractTextContent data = Some (concat blank_line (fragments parts)) /\
    (fragments parts <> [] ->
     (forall w c,
         messages (on_status_update (Json data) w c)
           = (messages c ++ [entry w (concat blank_line (fragments parts)) TStatus])%list) /\
     (forall w1 w2 c,
         exists rest,
           messages (on_final_response (Json data) w1 w2 c)
             = (messages c
                ++ entry w1 (concat blank_line (fragments parts)) TFinal :: rest)%list)).
Proof.
  intros data parts Hc Ht. split.
  - exact (extractTextContent_typed _ _ Hc Ht).
  - intro Hne. split.
    + intros w c. rewrite (on_status_update_typed _ _ _ _ Hc Ht).
      now rewrite (joined_fragments_nonempty _ Hne).
    + intros w1 w2 c. exact (on_final_response_text_first _ _ w1 w2 c Hc Ht Hne).
Qed.

Lemma text_extraction_joins_fragments_witness :
  extractTextContent
    (payload [text_part "Found 5 leads"; file_part "leads.json" "application/json";
              text_part ""; text_part "Done"])
    = Some (concat blank_line ["Found 5 leads"; "Done"]).
Proof.
  apply (text_extraction_joins_fragments
           (payload [text_part "Found 5 leads"; file_part "leads.json" "application/json";
                     text_part ""; text_part "Done"])
           [text_part "Found 5 leads"; file_part "leads.json" "application/json";
            text_part ""; text_part "Done"]); reflexivity.
Defined.

(** ** Final responses *)




(** C7 fails as stated: the content list holds one entry that is a JSON
    file named [leads.json], after another JSON file; the announcement
    names the first JSON file, and no transcript entry mentions
    [leads.json]. *)
Lemma later_leads_json_not_announced :
  forallb well_formed_part
    [file_part "summary.json" "application/json";
     file_part "leads.json" "application/json"] = true /\
  List.length (filter is_leads_json
                 [file_part "summary.json" "application/json";
                  file_part "leads.json" "application/json"]) = 1 /\
  messages (step mount
              (final_response
                 (Json (payload [file_part "summary.json" "application/json";
                                 file_part "leads.json" "application/json"]))
                 fresh1 fresh2))
    = [entry fresh2 "✅ Lead generation complete! Generated summary.json." TFinal] /\
  existsb (fun m => includes "leads.json" (content m))
    (messages (step mount
                 (final_response
                    (Json (payload [file_part "summary.json" "application/json";
                                    file_part "leads.json" "application/json"]))
                    fresh1 fresh2))) = false.
Proof. repeat (split; [reflexivity |]). reflexivity. Qed.

(** C7, amended.  On a [final_response] of the declared shape in which the
    first entry declaring a JSON file is named [leads.json], the handler
    appends the text entry (when the payload has text) and then exactly one
    announcement, whose content includes [leads.json]. *)
Theorem json_artifact_announced :
  forall data parts a,
    content_list data = Some (JArr parts) ->
    forallb well_formed_part parts = true ->
    find declares_json parts = Some a ->
    Some a ?."file" ?."filename" = Some (JStr "leads.json") ->
    forall w1 w2 c,
      messages (on_final_response (Json data) w1 w2 c)
        = (messages c
           ++ text_entries w1 parts TFinal
           ++ [entry w2 "✅ Lead generation complete! Generated leads.json." TFinal])%list /\
      includes "leads.json" "✅ Lead generation complete! Generated leads.json." = true.
Proof.
  intros data parts a Hc Hwf Hfind Hname w1 w2 c.
  split; [| reflexivity].
  rewrite (on_final_response_well_formed _ _ _ _ _ Hc Hwf).
  cbn [completed extend messages].
  rewrite (final_entries_typed _ _ _ _ Hc (well_formed_text_typed _ Hwf)).
  rewrite Hfind. unfold announcement_text, artifact_name. rewrite Hname.
  reflexivity.
Qed.

Lemma json_artifact_announced_witness :
  messages (on_final_response
              (Json (payload [text_part "Done"; file_part "report.pdf" "application/pdf";
                              file_part "leads.json" "application/json"]))
              fresh1 fresh2 mount)
    = [entry fresh1 "Done" TFinal;
       entry fresh2 "✅ Lead generation complete! Generated leads.json." TFinal] /\
  includes "leads.json" "✅ Lead generation complete! Generated leads.json." = true.
Proof.
  apply (json_artifact_announced
           (payload [text_part "Done"; file_part "report.pdf" "application/pdf";
                     file_part "leads.json" "application/json"])
           [text_part "Done"; file_part "report.pdf" "application/pdf";
            file_part "leads.json" "application/json"]
           (file_part "leads.json" "application/json")); reflexivity.
Defined.

(** ** Gateway errors *)

(** The ['error'] listener replaces an empty message by its fallback
    text. *)
Lemma empty_error_message_replaced :
  Some (JObj [("error", JStr "")]) ?."error" = Some (JStr "") /\
  error (on_error_event (Json (JObj [("error", JStr "")])) fresh1 mount)
    = Some (JStr "An error occurred").
Proof. split; reflexivity. Qed.

(** The ['error'] listener alone, on a document with a non-empty string in
    [error]: it stores that message in the error slot and appends one entry
    of kind [error] whose content ends with it. *)
Lemma listener_stores_message data msg w c :
  Some data ?."error" = Some (JStr msg) ->
  msg <> "" ->
  error (on_error_event (Json data) w c) = Some (JStr msg) /\
  messages (on_error_event (Json data) w c)
    = (messages c ++ [entry w ("❌ Error: " ++ msg) TError])%list /\
  closure_isComplete (on_error_event (Json data) w c) = closure_isComplete c.
Proof.
  intros He Hne.
  assert (Hm : member (Some data) "error" = Returns (Some (JStr msg))).
  { destruct data; try discriminate He. cbn [member]. cbn [opt_member] in He.
    now rewrite He. }
  assert (Ht : truthy (JStr msg) = true).
  { cbn [truthy]. destruct (msg =? "") eqn:E; [| reflexivity].
    apply String.eqb_eq in E. contradiction. }
  unfold on_error_event, try_catch. cbn [has_data negb].
  rewrite (bind_returns _ _ c data c eq_refl).
  rewrite (bind_returns _ _ c (Some (JStr msg)) c) by (unfold lift; now rewrite Hm).
  cbv zeta. cbn [or_else]. rewrite Ht.
  split; [reflexivity | split; reflexivity].
Qed.

(** The whole dispatch of such an event, in a subscription whose handlers
    closed over a false flag (every subscription made before completion):
    the entry is there, but [onerror] has overwritten the message and
    closed the stream. *)
Lemma gateway_message_overwritten data msg w c :
  Some data ?."error" = Some (JStr msg) ->
  msg <> "" ->
  closure_isComplete c = false ->
  messages (step c (error_event (Json data) w))
    = (messages c ++ [entry w ("❌ Error: " ++ msg) TError])%list /\
  error (step c (error_event (Json data) w)) = Some (JStr "Connection to server lost") /\
  closed (step c (error_event (Json data) w)) = true.
Proof.
  intros He Hne Hc.
  destruct (listener_stores_message data msg w c He Hne) as [_ [Hm Hcl]].
  unfold step. cbn [dispatch].
  destruct (rerender_cells (onerror (on_error_event (Json data) w c)))
    as [-> [_ [-> _]]].
  rewrite onerror_keeps_messages.
  split; [exact Hm | split].
  - apply onerror_reports. now rewrite Hcl.
  - apply rerender_closes, onerror_closes.
Qed.

(** C9.  An event named [error] carrying the message "quota exceeded", on
    a freshly mounted page.  The ['error'] listener stores the message and
    appends the entry; then [eventSource.onerror], which handles the same
    event, replaces the message by "Connection to server lost" and closes
    the stream. *)
Theorem gateway_error_message_overwritten :
  error (on_error_event (Json (JObj [("error", JStr "quota exceeded")])) fresh1 mount)
    = Some (JStr "quota exceeded") /\
  messages (step mount (error_event (Json (JObj [("error", JStr "quota exceeded")])) fresh1))
    = [entry fresh1 "❌ Error: quota exceeded" TError] /\
  error (step mount (error_event (Json (JObj [("error", JStr "quota exceeded")])) fresh1))
    = Some (JStr "Connection to server lost") /\
  closed (step mount (error_event (Json (JObj [("error", JStr "quota exceeded")])) fresh1))
    = true.
Proof. repeat (split; [reflexivity |]). reflexivity. Qed.

(** * Further properties of the page *)

(** ** What each listener can write *)

Definition announcement_prefix : string := "✅ Lead generation complete! Generated ".

Definition error_prefix : string := "❌ Error: ".

(** The entries one [final_response] can add: at most a text entry, then at
    most an announcement. *)
Inductive final_suffix (w1 w2 : Fresh) : list AgentMessage -> Prop :=
| final_nothing : final_suffix w1 w2 []
| final_text s : s <> "" -> final_suffix w1 w2 [entry w1 s TFinal]
| final_announcement name :
    final_suffix w1 w2 [entry w2 (announcement_prefix ++ name ++ ".") TFinal]
| final_text_announcement s name :
    s <> "" ->
    final_suffix w1 w2 [entry w1 s TFinal;
                        entry w2 (announcement_prefix ++ name ++ ".") TFinal].

Lemma nonempty_text content :
  nonempty content = true -> text_or_empty content <> "".
Proof.
  destruct content as [s|]; simpl; [| discriminate].
  intros H ->. discriminate H.
Qed.

Lemma announcement_starts a s :
  announcement a = Returns s -> exists name, s = announcement_prefix ++ name ++ ".".
Proof.
  unfold announcement. destruct (member (Some a) "file") as [f|]; [| discriminate].
  cbn [obind]. destruct (ToString _) as [name|]; [| discriminate].
  cbn [obind]. intro H. injection H as <-. now exists name.
Qed.

Lemma or_else_truthy a b : truthy b = true -> truthy (or_else a b) = true.
Proof.
  intro Hb. unfold or_else. destruct a as [j|]; [| exact Hb].
  destruct (truthy j) eqn:E; [exact E | exact Hb].
Qed.

(** X1.  A [status_update], whatever its payload, changes nothing but the
    transcript, and adds to it at most one entry: of kind [status] and with
    a non-empty content. *)
Theorem status_update_footprint :
  forall event w c,
    isComplete (on_status_update event w c) = isComplete c /\
    error (on_status_update event w c) = error c /\
    closed (on_status_update event w c) = closed c /\
    (messages (on_status_update event w c) = messages c \/
     exists s, s <> "" /\
       messages (on_status_update event w c) = (messages c ++ [entry w s TStatus])%list).
Proof.
  intros event w c. unfold on_status_update, try_catch, bind, lift.
  destruct (JSON_parse event) as [data|]; cbn; [| auto].
  destruct (nonempty (extractTextContent data)) eqn:E; cbn; [| auto].
  repeat split. right. eexists. split; [| reflexivity].
  now apply nonempty_text.
Qed.

(** The [final_response] listener alone. *)
Lemma on_final_response_cells event w1 w2 c :
  error (on_final_response event w1 w2 c) = error c /\
  closed (on_final_response event w1 w2 c) = closed c /\
  (isComplete c = true -> isComplete (on_final_response event w1 w2 c) = true) /\
  (crashed (on_final_response event w1 w2 c) = crashed c \/
   exists a, announcement a = Throws) /\
  exists suffix,
    final_suffix w1 w2 suffix /\
    messages (on_final_response event w1 w2 c) = (messages c ++ suffix)%list.
Proof.
  destruct (on_final_response_evolves event w1 w2 c) as [_ [Hflag _]].
  unfold on_final_response, try_catch, bind, lift.
  destruct (JSON_parse event) as [data|]; cbn [snd];
    [| repeat split; auto; exists []; split; [constructor | now rewrite app_nil_r]].
  pose proof (nonempty_text (extractTextContent data)) as Htext.
  cbv zeta.
  destruct (nonempty (extractTextContent data)); cbn [when ret setMessages append obind];
    destruct (member (Some data) "result") as [result|]; cbn [snd];
    try destruct (optional_filter _ carries_file) as [[[|a0 arts]|]|];
    cbn [snd some_artifacts when ret];
    try destruct (Array_find is_json_artifact (a0 :: arts)) as [[a|]|]; cbn [snd ret];
    try destruct (truthy a); cbn [snd when ret];
    try (unfold setMessages, append;
         destruct (announcement a) as [s|] eqn:Ea; cbn [obind snd messages];
         try (destruct (announcement_starts _ _ Ea) as [name ->]));
    cbn [error closed isComplete messages crashed snd setIsComplete];
    (split; [reflexivity | split; [reflexivity | split; [auto |]]]);
    (split; [first [left; reflexivity | right; eexists; eassumption] |]);
    first [ exists []; split; [constructor | now rewrite app_nil_r]
          | rewrite <- ?app_assoc; cbn [app]; eexists; split; [| reflexivity];
            constructor; auto ].
Qed.

(** The ['error'] listener alone. *)
Lemma on_error_event_cells event w c :
  isComplete (on_error_event event w c) = isComplete c /\
  closed (on_error_event event w c) = closed c /\
  closure_isComplete (on_error_event event w c) = closure_isComplete c /\
  (on_error_event event w c = c \/
   exists j,
     truthy j = true /\
     error (on_error_event event w c) = Some j /\
     (messages (on_error_event event w c) = messages c \/
      exists s,
        ToString j = Returns s /\
        messages (on_error_event event w c)
          = (messages c ++ [entry w (error_prefix ++ s) TError])%list)).
Proof.
  unfold on_error_event, try_catch.
  destruct (negb (has_data event)); [cbn; auto |].
  unfold bind, lift.
  destruct (JSON_parse event) as [data|]; [| cbn; auto].
  destruct (member (Some data) "error") as [e|]; [| cbn; auto].
  cbv zeta.
  assert (Ht : truthy (or_else e (JStr "An error occurred")) = true)
    by (apply or_else_truthy; reflexivity).
  set (errorMsg := or_else e (JStr "An error occurred")) in *.
  unfold setError, setMessages, append.
  destruct (ToString errorMsg) as [s|] eqn:Es;
    cbn [obind snd isComplete closed error messages closure_isComplete];
    (split; [reflexivity | split; [reflexivity | split; [reflexivity |]]]);
    right; exists errorMsg; (split; [exact Ht | split; [reflexivity |]]).
  - right. exists s. split; [exact Es | reflexivity].
  - left. reflexivity.
Qed.

Lemma onerror_cells c :
  messages (onerror c) = messages c /\
  isComplete (onerror c) = isComplete c /\
  closed (onerror c) = true /\
  (error (onerror c) = error c \/
   error (onerror c) = Some (JStr "Connection to server lost")).
Proof.
  unfold onerror. destruct (closure_isComplete c); cbn; auto.
Qed.





(** ** What the page shows *)

(** [{error && ...{error}...}]: the red banner, on a page that is still
    mounted and whose error can be rendered. *)
Definition shows_banner (c : Consumer) : bool :=
  negb (crashed c) && error_renders (error c) && ToBoolean (error c).

(** [{messages.length === 0 && !error && ...}]: "Connecting to agents...". *)
Definition shows_placeholder (c : Consumer) : bool :=
  (List.length (messages c) =? 0)%nat && negb (ToBoolean (error c)).

Definition is_error_entry (m : AgentMessage) : bool :=
  match type m with
  | TError => true
  | _ => false
  end.

(** No step clears the error slot or stores a falsy value in it. *)
Lemma step_keeps_error c e :
  ToBoolean (error c) = true -> ToBoolean (error (step c e)) = true.
Proof.
  intro H. unfold step. destruct (rerender_cells (dispatch c e)) as [_ [_ [-> _]]].
  destruct e; cbn [dispatch].
  - destruct (status_update_footprint event w c) as [_ [-> _]]. exact H.
  - destruct (on_final_response_cells event w1 w2 c) as [-> _]. exact H.
  - destruct (onerror_cells (on_error_event event w c)) as [_ [_ [_ [-> | ->]]]];
      [| reflexivity].
    destruct (on_error_event_cells event w c) as [_ [_ [_ [-> | [j [Hj [-> _]]]]]]];
      [exact H | exact Hj].
  - destruct (onerror_cells c) as [_ [_ [_ [-> | ->]]]]; [exact H | reflexivity].
  - exact H.
  - exact H.
  - exact H.
Qed.

Lemma run_keeps_error events :
  forall c, ToBoolean (error c) = true -> ToBoolean (error (run c events)) = true.
Proof.
  induction events as [|e events IH]; intros c H; simpl; auto.
  apply IH, step_keeps_error, H.
Qed.

(** A page that is still mounted has an error it can render. *)
Definition presentable (c : Consumer) : Prop :=
  crashed c = false -> error_renders (error c) = true.

Lemma step_presentable c e : presentable (step c e).
Proof.
  unfold presentable, step, rerender.
  destruct (crashed (dispatch c e) || negb (error_renders (error (dispatch c e)))) eqn:E;
    [discriminate |].
  intros _. apply orb_false_iff in E as [_ E]. now apply negb_false_iff in E.
Qed.

Lemma run_presentable events : forall c, presentable c -> presentable (run c events).
Proof.
  induction events as [|e events IH]; intros c H; simpl; auto.
  apply IH, step_presentable.
Qed.

(** X4.  No handler ever clears the error slot or stores a falsy value in
    it: once the banner is shown it stays shown for as long as the page is
    mounted (it is lost only with the page, when a render throws). *)
Theorem error_banner_persists :
  forall c events,
    shows_banner c = true ->
    crashed (run c events) = false ->
    shows_banner (run c events) = true.
Proof.
  intros c events H Hlive. unfold shows_banner in *.
  apply andb_true_iff in H as [H Htruthy]. apply andb_true_iff in H as [Hc Hr].
  apply negb_true_iff in Hc.
  rewrite Hlive, (run_keeps_error events c Htruthy).
  rewrite (run_presentable events c (fun _ => Hr) Hlive). reflexivity.
Qed.

Lemma error_banner_persists_witness :
  shows_banner
    (run (step mount transport_error)
         [final_response (Json (payload [text_part "Done"])) fresh1 fresh2;
          taskId_changed; opened;
          status_update (Json (payload [text_part "again"])) fresh3]) = true.
Proof.
  apply (error_banner_persists (step mount transport_error)); reflexivity.
Defined.

(** X5.  The placeholder "Connecting to agents..." never comes back: once
    the page has an entry or an error, every later state has one. *)
Theorem placeholder_never_returns :
  forall c events,
    shows_placeholder c = false -> shows_placeholder (run c events) = false.
Proof.
  intros c events H. unfold shows_placeholder in *.
  apply andb_false_iff in H as [H | H]; apply andb_false_iff.
  - left. destruct (run_extends events c) as [suffix ->].
    destruct (messages c); [discriminate H |]. reflexivity.
  - right. apply negb_false_iff in H. apply negb_false_iff.
    now apply run_keeps_error.
Qed.

Lemma placeholder_never_returns_witness :
  shows_placeholder mount = true /\
  shows_placeholder
    (run (step mount (status_update (Json (payload [text_part "Searching"])) fresh1))
         [taskId_changed; unmounted]) = false.
Proof.
  split; [reflexivity |].
  apply (placeholder_never_returns
           (step mount (status_update (Json (payload [text_part "Searching"])) fresh1))).
  reflexivity.
Defined.

(** ** Invariants of the transcript *)

Lemma final_suffix_contents w1 w2 suffix :
  final_suffix w1 w2 suffix ->
  Forall (fun m => content m <> "" /\ type m = TFinal) suffix /\
  exists keep1 keep2 : bool,
    map id suffix
      = ((if keep1 then [uuid w1] else []) ++ (if keep2 then [uuid w2] else []))%list.
Proof.
  intros [| s Hs | name | s name Hs]; split;
    repeat constructor; cbn; auto; try discriminate.
  - now exists false, false.
  - now exists true, false.
  - now exists false, true.
  - now exists true, true.
Qed.

(** What one step adds to the transcript. *)
Lemma step_adds c e :
  exists suffix,
    messages (step c e) = (messages c ++ suffix)%list /\
    Forall (fun m => content m <> "") suffix /\
    (existsb is_error_entry suffix = true -> ToBoolean (error (step c e)) = true).
Proof.
  unfold step. destruct (rerender_cells (dispatch c e)) as [-> [_ [-> _]]].
  destruct e; cbn [dispatch].
  - destruct (status_update_footprint event w c) as [_ [_ [_ [H | [s [Hs H]]]]]].
    + exists []. rewrite app_nil_r. repeat split; [exact H | constructor | discriminate].
    + exists [entry w s TStatus]. repeat split; [exact H | | discriminate].
      repeat constructor. exact Hs.
  - destruct (on_final_response_cells event w1 w2 c) as [_ [_ [_ [_ [suffix [Hs H]]]]]].
    exists suffix. destruct (final_suffix_contents _ _ _ Hs) as [Hall _].
    repeat split; [exact H | |].
    + eapply Forall_impl; [| exact Hall]. now intros m [Hm _].
    + intro Hex. exfalso. apply existsb_exists in Hex as [m [Hin Hm]].
      rewrite Forall_forall in Hall. destruct (Hall m Hin) as [_ Ht].
      unfold is_error_entry in Hm. rewrite Ht in Hm. discriminate Hm.
  - destruct (onerror_cells (on_error_event event w c)) as [-> [_ [_ Herr]]].
    destruct (on_error_event_cells event w c)
      as [_ [_ [_ [H | [j [Hj [He [H | [s [Hs H]]]]]]]]]].
    + exists []. rewrite H, app_nil_r. repeat split; [constructor | discriminate].
    + exists []. rewrite app_nil_r. repeat split; [exact H | constructor | discriminate].
    + exists [entry w (error_prefix ++ s) TError].
      repeat split; [exact H | repeat constructor; discriminate |].
      intros _. destruct Herr as [-> | ->]; [| reflexivity]. rewrite He. exact Hj.
  - destruct (onerror_cells c) as [H _]. exists []. rewrite app_nil_r.
    repeat split; [exact H | constructor | discriminate].
  - exists []. rewrite app_nil_r. repeat split; [constructor | discriminate].
  - exists []. cbn. rewrite app_nil_r. repeat split; [constructor | discriminate].
  - exists []. cbn. rewrite app_nil_r. repeat split; [constructor | discriminate].
Qed.

(** X6.  No transcript entry is blank: in every run from the mount, every
    entry has a non-empty content. *)
Theorem transcript_entries_never_blank :
  forall events, Forall (fun m => content m <> "") (messages (run mount events)).
Proof.
  intro events.
  assert (H : forall c, Forall (fun m => content m <> "") (messages c) ->
                        Forall (fun m => content m <> "") (messages (run c events))).
  { induction events as [|e events IH]; intros c Hc; simpl; auto.
    apply IH. destruct (step_adds c e) as [suffix [-> [Hs _]]].
    apply Forall_app. now split. }
  apply H. constructor.
Qed.

(** X7.  An entry of kind [error] never stands alone: in every run from
    the mount that leaves the page mounted, if the transcript holds one
    then the banner is shown. *)
Theorem error_entries_come_with_banner :
  forall events,
    existsb is_error_entry (messages (run mount events)) = true ->
    crashed (run mount events) = false ->
    shows_banner (run mount events) = true.
Proof.
  intros events Hentry Hlive.
  assert (H : forall c,
             (existsb is_error_entry (messages c) = true -> ToBoolean (error c) = true) ->
             existsb is_error_entry (messages (run c events)) = true ->
             ToBoolean (error (run c events)) = true).
  { clear Hentry Hlive.
    induction events as [|e events IH]; intros c Hc; simpl; auto.
    apply IH. destruct (step_adds c e) as [suffix [Hm [_ Hs]]].
    rewrite Hm, existsb_app. intro Hex. apply orb_true_iff in Hex as [Hex | Hex].
    - apply step_keeps_error, Hc, Hex.
    - apply Hs, Hex. }
  unfold shows_banner.
  rewrite Hlive, (H mount (fun K => False_ind _ (Bool.diff_false_true K)) Hentry).
  rewrite (run_presentable events mount (fun _ => eq_refl) Hlive). reflexivity.
Qed.

Lemma error_entries_come_with_banner_witness :
  shows_banner
    (run mount [status_update (Json (payload [text_part "Searching"])) fresh1;
                error_event (Json (JObj [("error", JStr "quota exceeded")])) fresh2;
                final_response (Json (payload [text_part "Done"])) fresh3 fresh1]) = true.
Proof.
  apply (error_entries_come_with_banner
           [status_update (Json (payload [text_part "Searching"])) fresh1;
            error_event (Json (JObj [("error", JStr "quota exceeded")])) fresh2;
            final_response (Json (payload [text_part "Done"])) fresh3 fresh1]);
    reflexivity.
Defined.

(** A [final_response] whose data parses. *)
Definition parsed_final_response (e : Event) : bool :=
  match e with
  | final_response (Json _) _ _ => true
  | _ => false
  end.

Lemma step_raises_flag c e :
  isComplete (step c e) = true ->
  isComplete c = true \/ parsed_final_response e = true.
Proof.
  unfold step. destruct (rerender_cells (dispatch c e)) as [_ [-> _]].
  destruct e; cbn [dispatch].
  - destruct (status_update_footprint event w c) as [-> _]. auto.
  - destruct event as [| raw | data]; cbn; auto.
  - destruct (onerror_cells (on_error_event event w c)) as [_ [-> _]].
    destruct (on_error_event_cells event w c) as [-> _]. auto.
  - destruct (onerror_cells c) as [_ [-> _]]. auto.
  - auto.
  - cbn. auto.
  - cbn. auto.
Qed.

(** X8.  Only a [final_response] whose data parses raises the completion
    flag: a run from the mount that ends with the flag raised contains
    one. *)
Theorem completion_needs_final_response :
  forall events,
    isComplete (run mount events) = true ->
    existsb parsed_final_response events = true.
Proof.
  intro events.
  assert (H : forall c, isComplete (run c events) = true ->
                        isComplete c = true \/ existsb parsed_final_response events = true).
  { induction events as [|e events IH]; intros c Hc; simpl in *; auto.
    destruct (IH _ Hc) as [Hstep | Hlater].
    - destruct (step_raises_flag _ _ Hstep) as [H | H]; [auto | right; now rewrite H].
    - right. rewrite Hlater. apply orb_true_r. }
  intro Hc. destruct (H mount Hc) as [Hm | Hex]; [discriminate Hm | exact Hex].
Qed.

Lemma completion_needs_final_response_witness :
  existsb parsed_final_response
    [status_update (Json (payload [text_part "Searching"])) fresh1;
     final_response (Json (JObj [])) fresh2 fresh3;
     transport_error] = true.
Proof.
  apply (completion_needs_final_response
           [status_update (Json (payload [text_part "Searching"])) fresh1;
            final_response (Json (JObj [])) fresh2 fresh3;
            transport_error]).
  reflexivity.
Defined.

(** ** Updates whose data does not parse *)

(** X30.  A [status_update] or a [final_response] whose data [JSON.parse]
    rejects changes nothing on a page that is mounted and can render its
    error: transcript, flag, error slot and stream are as before. *)
Theorem unparseable_update_ignored :
  forall event,
    JSON_parse event = Throws ->
    forall c,
      crashed c = false ->
      error_renders (error c) = true ->
      forall w w',
        step c (status_update event w) = c /\
        step c (final_response event w w') = c.
Proof.
  intros event Hparse c Hlive Hrenders w w'.
  destruct (listeners_ignore_unparseable event Hparse w w' c) as [Hs [Hf _]].
  unfold step. cbn [dispatch]. rewrite Hs, Hf.
  unfold rerender. rewrite Hlive, Hrenders. now split.
Qed.

Lemma unparseable_update_ignored_witness :
  step mount (status_update (Unparseable "<html>") fresh1) = mount /\
  step mount (final_response (Unparseable "<html>") fresh1 fresh2) = mount.
Proof.
  apply (unparseable_update_ignored (Unparseable "<html>")); reflexivity.
Defined.

(** ** Entry identifiers *)

(** [l] keeps some elements of [l'], in their order. *)
Inductive subseq {A : Type} : list A -> list A -> Prop :=
| subseq_nil : subseq [] []
| subseq_skip x l l' : subseq l l' -> subseq l (x :: l')
| subseq_keep x l l' : subseq l l' -> subseq (x :: l) (x :: l').

Lemma subseq_In {A} (l l' : list A) x : subseq l l' -> In x l -> In x l'.
Proof.
  induction 1 as [| y l l' _ IH | y l l' _ IH]; simpl; auto.
  intros [-> | H]; auto.
Qed.

Lemma subseq_NoDup {A} (l l' : list A) : subseq l l' -> NoDup l' -> NoDup l.
Proof.
  induction 1 as [| y l l' _ IH | y l l' Hs IH]; intro Hnd; auto.
  - inversion_clear Hnd. auto.
  - inversion_clear Hnd as [| ? ? Hnotin Hrest]. constructor; auto.
    intro Hin. apply Hnotin. eapply subseq_In; eassumption.
Qed.

Lemma subseq_app {A} (l1 l1' l2 l2' : list A) :
  subseq l1 l1' -> subseq l2 l2' -> subseq (l1 ++ l2) (l1' ++ l2').
Proof.
  induction 1 as [| x l l' _ IH | x l l' _ IH]; intro H2; simpl.
  - exact H2.
  - apply subseq_skip. now apply IH.
  - apply subseq_keep. now apply IH.
Qed.

(** The identifiers the environment supplies to one step. *)
Definition supplied (e : Event) : list string :=
  match e with
  | status_update _ w => [uuid w]
  | final_response _ w1 w2 => [uuid w1; uuid w2]
  | error_event _ w => [uuid w]
  | _ => []
  end.

Ltac subseq_cases :=
  repeat first [apply subseq_nil | apply subseq_keep | apply subseq_skip].

Lemma step_ids c e :
  exists l,
    map id (messages (step c e)) = (map id (messages c) ++ l)%list /\
    subseq l (supplied e).
Proof.
  unfold step. destruct (rerender_cells (dispatch c e)) as [-> _].
  destruct e; cbn [dispatch supplied].
  - destruct (status_update_footprint event w c) as [_ [_ [_ [-> | [s [_ ->]]]]]].
    + exists []. rewrite app_nil_r. split; [reflexivity | subseq_cases].
    + exists [uuid w]. rewrite map_app. split; [reflexivity | subseq_cases].
  - destruct (on_final_response_cells event w1 w2 c) as [_ [_ [_ [_ [suffix [Hs ->]]]]]].
    destruct (final_suffix_contents _ _ _ Hs) as [_ [k1 [k2 Hids]]].
    exists (map id suffix). rewrite map_app. split; [reflexivity |].
    rewrite Hids. destruct k1, k2; subseq_cases.
  - destruct (onerror_cells (on_error_event event w c)) as [-> _].
    destruct (on_error_event_cells event w c)
      as [_ [_ [_ [-> | [j [_ [_ [-> | [s [_ ->]]]]]]]]]].
    + exists []. rewrite app_nil_r. split; [reflexivity | subseq_cases].
    + exists []. rewrite app_nil_r. split; [reflexivity | subseq_cases].
    + exists [uuid w]. rewrite map_app. split; [reflexivity | subseq_cases].
  - destruct (onerror_cells c) as [-> _]. exists []. rewrite app_nil_r.
    split; [reflexivity | subseq_cases].
  - exists []. rewrite app_nil_r. split; [reflexivity | subseq_cases].
  - exists []. cbn. rewrite app_nil_r. split; [reflexivity | subseq_cases].
  - exists []. cbn. rewrite app_nil_r. split; [reflexivity | subseq_cases].
Qed.

Lemma run_ids events :
  forall c,
    exists l,
      map id (messages (run c events)) = (map id (messages c) ++ l)%list /\
      subseq l (flat_map supplied events).
Proof.
  induction events as [|e events IH]; intro c; simpl.
  - exists []. rewrite app_nil_r. split; [reflexivity | constructor].
  - destruct (IH (step c e)) as [l2 [H2 Hs2]].
    destruct (step_ids c e) as [l1 [H1 Hs1]].
    exists (l1 ++ l2)%list. split.
    + fold (run (step c e) events). rewrite H2, H1, app_assoc. reflexivity.
    + now apply subseq_app.
Qed.

(** X9.  The identifiers of the transcript are those the environment
    supplied, in order of supply; so in a run from the mount in which
    [crypto.randomUUID()] never repeats itself, no two entries share an
    [id] (the key under which the page renders them). *)
Theorem transcript_ids_distinct :
  forall events,
    NoDup (flat_map supplied events) ->
    subseq (map id (messages (run mount events))) (flat_map supplied events) /\
    NoDup (map id (messages (run mount events))).
Proof.
  intros events Hnd.
  destruct (run_ids events mount) as [l [Hl Hs]]. cbn in Hl. rewrite Hl.
  split; [exact Hs | eapply subseq_NoDup; eassumption].
Qed.

Lemma transcript_ids_distinct_witness :
  NoDup (map id
           (messages
              (run mount
                   [status_update (Json (payload [text_part "Searching"])) fresh1;
                    final_response
                      (Json (payload [text_part "Done";
                                      file_part "leads.json" "application/json"]))
                      fresh2 fresh3]))).
Proof.
  apply (transcript_ids_distinct
           [status_update (Json (payload [text_part "Searching"])) fresh1;
            final_response
              (Json (payload [text_part "Done";
                              file_part "leads.json" "application/json"]))
              fresh2 fresh3]).
  repeat constructor; cbn; intuition discriminate.
Defined.

(** ** Content lists the listeners cannot walk *)

Lemma Array_filter_throws {A} (f : A -> outcome bool) (l : list A) x :
  In x l -> f x = Throws -> Array_filter f l = Throws.
Proof.
  intros Hin Hx. induction l as [|y l IH]; [contradiction |].
  cbn [Array_filter]. destruct Hin as [-> | Hin].
  - rewrite Hx. reflexivity.
  - rewrite (IH Hin). destruct (f y); reflexivity.
Qed.

Lemma extractTextContent_null_entry data parts :
  content_list data = Some (JArr parts) ->
  In JNull parts ->
  extractTextContent data = None.
Proof.
  intros Hc Hin. unfold extractTextContent.
  rewrite (content_list_member _ _ Hc). cbn [obind]. cbv zeta.
  change (Some data ?."result" ?."status" ?."message" ?."content")
    with (content_list data).
  rewrite Hc. cbn [ToBoolean truthy Array_isArray negb orb elements].
  rewrite (Array_filter_throws _ parts JNull Hin) by reflexivity.
  reflexivity.
Qed.

(** X10.  A [null] among the entries of the content list makes both
    listeners drop the event whole: the other entries' text is not shown,
    no artifact is announced, and a [final_response] does not raise the
    completion flag. *)
Theorem null_entry_drops_event :
  forall data parts,
    content_list data = Some (JArr parts) ->
    In JNull parts ->
    forall w1 w2 c,
      on_status_update (Json data) w1 c = c /\
      on_final_response (Json data) w1 w2 c = c.
Proof.
  intros data parts Hc Hin w1 w2 c. split.
  - unfold on_status_update, try_catch, bind, lift. cbn [JSON_parse].
    rewrite (extractTextContent_null_entry _ _ Hc Hin). reflexivity.
  - unfold on_final_response, try_catch.
    rewrite (bind_returns _ _ c data c eq_refl). cbv zeta.
    rewrite (extractTextContent_null_entry _ _ Hc Hin). cbn [nonempty when].
    rewrite (bind_returns _ _ c tt c eq_refl).
    rewrite (bind_returns _ _ c (Some data ?."result") c)
      by (unfold lift; now rewrite (content_list_member _ _ Hc)).
    change (Some data ?."result" ?."status" ?."message" ?."content")
      with (content_list data).
    rewrite Hc. cbn [optional_filter].
    rewrite (Array_filter_throws carries_file parts JNull Hin) by reflexivity.
    reflexivity.
Qed.

Lemma null_entry_drops_event_witness :
  on_status_update (Json (payload [text_part "Found 5 leads"; JNull])) fresh1 mount = mount /\
  on_final_response (Json (payload [text_part "Found 5 leads"; JNull])) fresh1 fresh2 mount
    = mount.
Proof.
  apply (null_entry_drops_event (payload [text_part "Found 5 leads"; JNull])
                                [text_part "Found 5 leads"; JNull]).
  - reflexivity.
  - right. left. reflexivity.
Defined.

(** X11.  A content list that is present but is not an array (a string, a
    number, an object) yields no text, and a [final_response] carrying it is
    dropped whole: the completion flag is not raised. *)
Theorem content_not_a_list_drops_final_response :
  forall data v,
    content_list data = Some v ->
    nullish (Some v) = false ->
    Array_isArray (Some v) = false ->
    forall w1 w2 c,
      extractTextContent data = None /\
      on_final_response (Json data) w1 w2 c = c.
Proof.
  intros data v Hc Hnull Harr w1 w2 c.
  assert (Hx : extractTextContent data = None).
  { unfold extractTextContent.
    rewrite (content_list_member _ _ Hc). cbn [obind]. cbv zeta.
    change (Some data ?."result" ?."status" ?."message" ?."content")
      with (content_list data).
    rewrite Hc, Harr. rewrite orb_true_r. reflexivity. }
  split; [exact Hx |].
  unfold on_final_response, try_catch.
  rewrite (bind_returns _ _ c data c eq_refl). cbv zeta.
  rewrite Hx. cbn [nonempty when].
  rewrite (bind_returns _ _ c tt c eq_refl).
  rewrite (bind_returns _ _ c (Some data ?."result") c)
    by (unfold lift; now rewrite (content_list_member _ _ Hc)).
  change (Some data ?."result" ?."status" ?."message" ?."content")
    with (content_list data).
  rewrite Hc. destruct v; try discriminate Hnull; try discriminate Harr; reflexivity.
Qed.

Lemma content_not_a_list_drops_final_response_witness :
  extractTextContent
    (JObj [("result", JObj [("status", JObj [("message",
             JObj [("content", JStr "All done")])])])]) = None /\
  on_final_response
    (Json (JObj [("result", JObj [("status", JObj [("message",
                   JObj [("content", JStr "All done")])])])]))
    fresh1 fresh2 mount = mount.
Proof.
  apply (content_not_a_list_drops_final_response
           (JObj [("result", JObj [("status", JObj [("message",
                    JObj [("content", JStr "All done")])])])])
           (JStr "All done")); reflexivity.
Defined.

(** ** Re-subscription *)

(** X12.  A subscription made after completion (the task identifier of a
    completed page changes) closes over the raised flag: within it a
    transport error closes the stream and leaves the error slot as it
    was. *)
Theorem resubscribed_after_completion_suppresses :
  forall c events,
    isComplete c = true ->
    ~ In taskId_changed events ->
    error (step (run (step c taskId_changed) events) transport_error)
      = error (run (step c taskId_changed) events) /\
    closed (step (run (step c taskId_changed) events) transport_error) = true.
Proof.
  intros c events Hc Hno.
  assert (Hcl : closure_isComplete (run (step c taskId_changed) events) = true).
  { rewrite (closure_fixed_within_subscription events (step c taskId_changed) Hno).
    unfold step. destruct (rerender_cells (dispatch c taskId_changed)) as [_ [_ [_ ->]]].
    exact Hc. }
  unfold step at 1 3. cbn [dispatch].
  destruct (rerender_cells (onerror (run (step c taskId_changed) events)))
    as [_ [_ [-> _]]].
  split; [now apply onerror_silent | apply rerender_closes, onerror_closes].
Qed.

Lemma resubscribed_after_completion_suppresses_witness :
  error (step (run (step (run mount [final_response (Json (payload [])) fresh1 fresh2])
                         taskId_changed)
                   [status_update (Json (payload [text_part "late"])) fresh3])
              transport_error) = None /\
  closed (step (run (step (run mount [final_response (Json (payload [])) fresh1 fresh2])
                          taskId_changed)
                    [status_update (Json (payload [text_part "late"])) fresh3])
               transport_error) = true.
Proof.
  apply (resubscribed_after_completion_suppresses
           (run mount [final_response (Json (payload [])) fresh1 fresh2])
           [status_update (Json (payload [text_part "late"])) fresh3]).
  - reflexivity.
  - intros [H | []]. discriminate H.
Defined.

(** ** The whole effect of a final response of the declared shape *)

(** X13.  On a [final_response] of the declared shape the transcript gains
    the text entry (when some entry has a non-empty text) and then one
    announcement naming the first entry that declares a JSON file, by its
    [filename], or as "leads artifact" when the filename is empty; without
    such an entry nothing is announced.  The flag is raised and the other
    cells are untouched. *)
Theorem final_response_typed_transcript :
  forall data parts,
    content_list data = Some (JArr parts) ->
    forallb well_formed_part parts = true ->
    forall w1 w2 c,
      messages (on_final_response (Json data) w1 w2 c)
        = (messages c
           ++ text_entries w1 parts TFinal
           ++ match find declares_json parts with
              | Some a => [entry w2 (announcement_prefix ++ artifact_name a ++ ".") TFinal]
              | None => []
              end)%list /\
      isComplete (on_final_response (Json data) w1 w2 c) = true /\
      error (on_final_response (Json data) w1 w2 c) = error c /\
      closed (on_final_response (Json data) w1 w2 c) = closed c.
Proof.
  intros data parts Hc Hwf w1 w2 c.
  rewrite (on_final_response_well_formed _ _ _ _ _ Hc Hwf).
  cbn [completed extend messages isComplete error closed].
  rewrite (final_entries_typed _ _ _ _ Hc (well_formed_text_typed _ Hwf)).
  repeat split.
Qed.

Lemma final_response_typed_transcript_witness :
  messages (on_final_response
              (Json (payload [file_part "notes.txt" "text/plain";
                              file_part "" "application/json"; text_part "Done"]))
              fresh1 fresh2 mount)
    = [entry fresh1 "Done" TFinal;
       entry fresh2 "✅ Lead generation complete! Generated leads artifact." TFinal].
Proof.
  apply (final_response_typed_transcript
           (payload [file_part "notes.txt" "text/plain";
                     file_part "" "application/json"; text_part "Done"])
           [file_part "notes.txt" "text/plain";
            file_part "" "application/json"; text_part "Done"]); reflexivity.
Defined.

(** * The intake form *)

Module Intake.

Local Open Scope list_scope.

(** ** Comma-separated inputs

    [String.prototype.trim] and [split] work on UTF-16 code units; a form
    input is modelled as the list of its code units. *)

Definition jsstring : Type := list Z.

Definition comma : Z := 44.
Definition space : Z := 32.

(** ECMAScript [WhiteSpace] and [LineTerminator]: what [trim] strips. *)
Definition is_white_space (u : Z) : bool :=
  ((u =? 9) || (u =? 10) || (u =? 11) || (u =? 12) || (u =? 13) || (u =? 32)
   || (u =? 160) || (u =? 5760) || ((8192 <=? u) && (u <=? 8202))
   || (u =? 8232) || (u =? 8233) || (u =? 8239) || (u =? 8287)
   || (u =? 12288) || (u =? 65279))%Z.

Fixpoint trimStart (s : jsstring) : jsstring :=
  match s with
  | [] => []
  | u :: rest => if is_white_space u then trimStart rest else s
  end.

Definition trimEnd (s : jsstring) : jsstring := rev (trimStart (rev s)).

Definition trim (s : jsstring) : jsstring := trimEnd (trimStart s).

(** [s.split(',')] *)
Fixpoint split_comma (s : jsstring) : list jsstring :=
  match s with
  | [] => [[]]
  | u :: rest =>
      if (u =? comma)%Z then [] :: split_comma rest
      else match split_comma rest with
           | piece :: pieces => (u :: piece) :: pieces
           | [] => [[u]]
           end
  end.

(** [input.split(',').map((s) => s.trim()).filter((s) => s.length > 0)] *)
Definition parse_list (input : jsstring) : list jsstring :=
  filter (fun s => (0 <? List.length s)%nat) (map trim (split_comma input)).

(** [items.join(sep)] on strings. *)
Fixpoint join (sep : jsstring) (items : list jsstring) : jsstring :=
  match items with
  | [] => []
  | [x] => x
  | x :: rest => (x ++ sep ++ join sep rest)%list
  end.

(** Two sample items: "SEO" and "web design". *)
Definition sample_SEO : jsstring := [83; 69; 79]%Z.
Definition sample_web_design : jsstring :=
  [119; 101; 98; 32; 100; 101; 115; 105; 103; 110]%Z.

(** No white space at the start, none at the end. *)
Definition starts_clean (s : jsstring) : bool :=
  match s with
  | [] => true
  | u :: _ => negb (is_white_space u)
  end.

Definition ends_clean (s : jsstring) : bool := starts_clean (rev s).

(** An item as the parser delivers it. *)
Definition clean_item (s : jsstring) : Prop :=
  s <> [] /\ ~ In comma s /\ starts_clean s = true /\ ends_clean s = true.

Lemma trimStart_suffix s :
  exists blanks,
    s = (blanks ++ trimStart s)%list /\ Forall (fun u => is_white_space u = true) blanks.
Proof.
  induction s as [|u s [blanks [Hs Hb]]]; [now exists [] |].
  cbn [trimStart]. destruct (is_white_space u) eqn:E.
  - exists (u :: blanks). split; [cbn; now rewrite <- Hs | now constructor].
  - now exists [].
Qed.

Lemma trimStart_starts_clean s : starts_clean (trimStart s) = true.
Proof.
  induction s as [|u s IH]; [reflexivity |].
  cbn [trimStart]. destruct (is_white_space u) eqn:E; [exact IH |].
  cbn. now rewrite E.
Qed.

Lemma trimStart_clean s : starts_clean s = true -> trimStart s = s.
Proof.
  destruct s as [|u s]; [reflexivity |]. cbn. intro H.
  apply negb_true_iff in H. now rewrite H.
Qed.

Lemma trimStart_app_solid s u rest :
  is_white_space u = false ->
  exists kept, trimStart (s ++ u :: rest) = (kept ++ u :: rest)%list /\
               (starts_clean s = true -> kept = s).
Proof.
  intro Hu. induction s as [|v s [kept [IH Hk]]].
  - exists []. cbn. rewrite Hu. split; reflexivity.
  - cbn [app trimStart]. destruct (is_white_space v) eqn:E.
    + exists kept. split; [exact IH |]. cbn. rewrite E. discriminate.
    + exists (v :: s). split; reflexivity.
Qed.

Lemma trim_starts_clean s : starts_clean (trim s) = true.
Proof.
  unfold trim, trimEnd.
  pose proof (trimStart_starts_clean s) as Hc.
  destruct (trimStart s) as [|u t] eqn:Et; [reflexivity |].
  cbn in Hc. apply negb_true_iff in Hc.
  cbn [rev].
  destruct (trimStart_app_solid (rev t) u [] Hc) as [kept [-> _]].
  rewrite rev_app_distr. cbn. now rewrite Hc.
Qed.

Lemma trim_ends_clean s : ends_clean (trim s) = true.
Proof.
  unfold ends_clean, trim, trimEnd. rewrite rev_involutive.
  apply trimStart_starts_clean.
Qed.

Lemma trim_clean s :
  starts_clean s = true -> ends_clean s = true -> trim s = s.
Proof.
  intros Hs He. unfold trim, trimEnd.
  rewrite (trimStart_clean s Hs), (trimStart_clean (rev s) He).
  apply rev_involutive.
Qed.

Lemma trimStart_In s u : In u (trimStart s) -> In u s.
Proof.
  destruct (trimStart_suffix s) as [blanks [Hs _]]. intro H.
  rewrite Hs. apply in_or_app. now right.
Qed.

Lemma trim_In s u : In u (trim s) -> In u s.
Proof.
  unfold trim, trimEnd. intro H.
  apply in_rev, trimStart_In in H. apply in_rev in H.
  now apply trimStart_In.
Qed.

Lemma trimStart_blank s :
  trimStart s = [] <-> Forall (fun u => is_white_space u = true) s.
Proof.
  split.
  - intro H. destruct (trimStart_suffix s) as [blanks [Hs Hb]].
    rewrite H, app_nil_r in Hs. now rewrite Hs.
  - induction 1 as [|u s Hu _ IH]; [reflexivity |]. cbn. now rewrite Hu.
Qed.

Lemma trim_blank s :
  trim s = [] <-> Forall (fun u => is_white_space u = true) s.
Proof.
  unfold trim, trimEnd. split.
  - intro H.
    assert (H' : trimStart (rev (trimStart s)) = [])
      by (destruct (trimStart (rev (trimStart s))); [reflexivity |];
          apply (f_equal (@List.length Z)) in H; rewrite length_rev in H;
          discriminate H).
    apply trimStart_blank in H'.
    destruct (trimStart_suffix s) as [blanks [Hs Hb]].
    rewrite Hs. apply Forall_app. split; [exact Hb |].
    apply Forall_rev in H'. now rewrite rev_involutive in H'.
  - intro H. apply trimStart_blank in H. rewrite H. reflexivity.
Qed.

Lemma split_comma_not_nil s : split_comma s <> [].
Proof.
  destruct s as [|u s]; cbn; [discriminate |].
  destruct (u =? comma)%Z; [discriminate |].
  destruct (split_comma s); discriminate.
Qed.

Lemma split_comma_pieces s :
  Forall (fun piece => ~ In comma piece /\ forall u, In u piece -> In u s) (split_comma s).
Proof.
  induction s as [|u s IH]; cbn [split_comma].
  - constructor; [split; [intros [] | intros v []] | constructor].
  - destruct (u =? comma)%Z eqn:E.
    + constructor; [split; [intros [] | intros v []] |].
      eapply Forall_impl; [| exact IH]. intros piece [Hc Hin]. split; [exact Hc |].
      intros v Hv. right. auto.
    + apply Z.eqb_neq in E.
      destruct (split_comma s) as [|piece pieces].
      * constructor; [split | constructor].
        -- intros [H | []]. now apply E.
        -- intros v [<- | []]. now left.
      * inversion_clear IH as [|? ? [Hc Hin] Hrest]. constructor.
        -- split; [intros [H | H]; [now apply E | now apply Hc] |].
           intros v [<- | Hv]; [now left | right; auto].
        -- eapply Forall_impl; [| exact Hrest]. intros p [Hpc Hpin].
           split; [exact Hpc |]. intros v Hv. right. auto.
Qed.

Lemma split_comma_cover s u :
  In u s -> u = comma \/ exists piece, In piece (split_comma s) /\ In u piece.
Proof.
  induction s as [|v s IH]; [intros [] |].
  intros [-> | Hin]; cbn [split_comma].
  - destruct (u =? comma)%Z eqn:E; [left; now apply Z.eqb_eq |]. right.
    destruct (split_comma s) as [|piece pieces].
    + exists [u]. split; now left.
    + exists (u :: piece). split; now left.
  - destruct (IH Hin) as [-> | [piece [Hp Hu]]]; [now left |]. right.
    destruct (v =? comma)%Z.
    + exists piece. split; [now right | exact Hu].
    + destruct (split_comma s) as [|p0 pieces]; [destruct Hp |].
      destruct Hp as [-> | Hp].
      * exists (v :: piece). split; [now left | now right].
      * exists piece. split; [now right | exact Hu].
Qed.

Lemma split_comma_solid x : ~ In comma x -> split_comma x = [x].
Proof.
  induction x as [|u x IH]; [reflexivity |]. intro H. cbn [split_comma].
  destruct (u =? comma)%Z eqn:E.
  - apply Z.eqb_eq in E. exfalso. apply H. now left.
  - rewrite IH; [reflexivity |]. intro Hin. apply H. now right.
Qed.

Lemma split_comma_app x rest :
  ~ In comma x -> split_comma (x ++ comma :: rest) = x :: split_comma rest.
Proof.
  induction x as [|u x IH]; intro H.
  - cbn. reflexivity.
  - cbn [app split_comma]. destruct (u =? comma)%Z eqn:E.
    + apply Z.eqb_eq in E. exfalso. apply H. now left.
    + rewrite IH; [reflexivity |]. intro Hin. apply H. now right.
Qed.

Lemma map_trim_leading_space t :
  map trim (split_comma (space :: t)) = map trim (split_comma t).
Proof.
  cbn [split_comma]. change (space =? comma)%Z with false. cbv iota.
  destruct (split_comma t) as [|piece pieces] eqn:E;
    [now apply split_comma_not_nil in E |].
  reflexivity.
Qed.

Lemma length_positive (s : jsstring) : s <> [] -> (0 <? List.length s)%nat = true.
Proof. destruct s; [contradiction | reflexivity]. Qed.

(** X14.  Every item the parser delivers is non-empty, holds no comma,
    has no white space at either end, and is made of characters of the
    input. *)
Theorem parse_list_items_clean :
  forall input,
    Forall (fun item => clean_item item /\ forall u, In u item -> In u input)
           (parse_list input).
Proof.
  intro input. unfold parse_list. apply Forall_forall. intros item Hin.
  apply filter_In in Hin as [Hin Hlen]. apply in_map_iff in Hin as [piece [<- Hp]].
  pose proof (split_comma_pieces input) as Hall. rewrite Forall_forall in Hall.
  destruct (Hall piece Hp) as [Hc Hsub].
  split; [split; [| split; [| split]] |].
  - intros E. rewrite E in Hlen. discriminate Hlen.
  - intro H. apply Hc. now apply trim_In.
  - apply trim_starts_clean.
  - apply trim_ends_clean.
  - intros u Hu. apply Hsub. now apply trim_In.
Qed.

Lemma map_trim_join items :
  items <> [] ->
  Forall clean_item items ->
  map trim (split_comma (join [comma; space] items)) = items.
Proof.
  intros Hne Hall. induction Hall as [|x items [Hx [Hc [Hs He]]] Hrest IH];
    [contradiction |].
  destruct items as [|y items].
  - cbn [join]. rewrite (split_comma_solid x Hc). cbn. now rewrite trim_clean.
  - change (join [comma; space] (x :: y :: items))
      with (x ++ comma :: space :: join [comma; space] (y :: items)).
    rewrite (split_comma_app x _ Hc). cbn [map].
    rewrite map_trim_leading_space, IH by discriminate.
    now rewrite trim_clean.
Qed.

(** X15.  Joining clean items with ", " (as the request prompt does) and
    parsing the result gives the items back. *)
Theorem parse_list_join_round_trip :
  forall items,
    Forall clean_item items ->
    parse_list (join [comma; space] items) = items.
Proof.
  intros items Hall. unfold parse_list.
  destruct items as [|x items]; [reflexivity |].
  rewrite (map_trim_join (x :: items)) by (discriminate || exact Hall).
  apply forallb_filter_id. apply forallb_forall. intros s Hs.
  rewrite Forall_forall in Hall. apply length_positive. now destruct (Hall s Hs).
Qed.

Lemma parse_list_join_round_trip_witness :
  parse_list (join [comma; space] [sample_SEO; sample_web_design])
    = [sample_SEO; sample_web_design].
Proof.
  apply (parse_list_join_round_trip [sample_SEO; sample_web_design]).
  repeat constructor; try discriminate; cbn; intuition discriminate.
Defined.

(** X16.  The parser delivers nothing exactly when the input is made of
    commas and white space only (the empty input included). *)
Theorem parse_list_empty_iff :
  forall input,
    parse_list input = [] <->
    Forall (fun u => u = comma \/ is_white_space u = true) input.
Proof.
  intro input. unfold parse_list. split.
  - intro H. apply Forall_forall. intros u Hu.
    destruct (split_comma_cover input u Hu) as [-> | [piece [Hp Hin]]]; [now left |].
    right.
    assert (Ht : trim piece = []).
    { destruct (trim piece) as [|v t] eqn:E; [reflexivity |]. exfalso.
      assert (Hf : In (v :: t) (filter (fun s => (0 <? List.length s)%nat)
                                        (map trim (split_comma input)))).
      { apply filter_In. split; [| reflexivity].
        rewrite <- E. now apply in_map. }
      rewrite H in Hf. destruct Hf. }
    apply trim_blank in Ht. rewrite Forall_forall in Ht. now apply Ht.
  - intro Hall.
    destruct (filter _ _) as [|item items] eqn:E; [reflexivity |]. exfalso.
    assert (Hin : In item (filter (fun s => (0 <? List.length s)%nat)
                                  (map trim (split_comma input))))
      by (rewrite E; now left).
    apply filter_In in Hin as [Hin Hlen].
    apply in_map_iff in Hin as [piece [<- Hp]].
    pose proof (split_comma_pieces input) as Hpieces. rewrite Forall_forall in Hpieces.
    destruct (Hpieces piece Hp) as [Hc Hsub].
    assert (Hblank : trim piece = []).
    { apply trim_blank, Forall_forall. intros u Hu.
      rewrite Forall_forall in Hall.
      destruct (Hall u (Hsub u Hu)) as [-> | Hw]; [contradiction | exact Hw]. }
    rewrite Hblank in Hlen. discriminate Hlen.
Qed.

End Intake.

(** * The gateway client ([lib/api.ts]) *)

Module Api.

(** [process.env.NEXT_PUBLIC_API_BASE_URL || 'http://localhost:8000'] *)
Definition API_BASE_URL (env : option string) : string :=
  match env with
  | Some url => if url =? "" then "http://localhost:8000" else url
  | None => "http://localhost:8000"
  end.

Definition getSSEUrl (env : option string) (taskId : string) : string :=
  API_BASE_URL env ++ "/api/v1/sse/subscribe/" ++ taskId.

(** What [fetch] and [response.json()] can answer.  A rejection carries the
    message of the [Error] it rejects with. *)
Inductive Body : Type :=
| NotJson (message : string)
| JsonBody (data : json).

Inductive Fetched : Type :=
| NetworkFailure (message : string)
| Responded (ok : bool) (statusText : string) (body : Body).

(** The environment of one submission: the answer to the request, and the
    message the engine gives to a [TypeError] it raises itself. *)
Record Environment : Type := {
  fetched : Fetched;
  type_error_message : string
}.

(** A thrown value, as the caller's [err instanceof Error] sees it. *)
Inductive Thrown : Type :=
| Error_with (message : string)
| not_an_Error.

(** [submitLeadRequest], from the answer on: the request it sends is not
    part of the model.  It resolves with [data.result.id], whatever that
    is. *)
Definition submitLeadRequest (env : Environment) : Thrown + value :=
  match fetched env with
  | NetworkFailure message => inl (Error_with message)
  | Responded ok statusText body =>
      if negb ok then inl (Error_with ("Failed to submit request: " ++ statusText))
      else
        match body with
        | NotJson message => inl (Error_with message)
        | JsonBody data =>
            match (result <~ member (Some data) "result"; member result "id") with
            | Returns taskId => inr taskId
            | Throws => inl (Error_with (type_error_message env))
            end
        end
  end.

Lemma append_cancel (p a b : string) : p ++ a = p ++ b -> a = b.
Proof.
  induction p as [|ch p IH]; cbn; intro H; [exact H |].
  injection H as H. now apply IH.
Qed.

(** X17.  The subscription address determines the task: under one
    configuration two task identifiers with the same address are equal;
    and the base address is never empty. *)
Theorem getSSEUrl_injective :
  forall env,
    API_BASE_URL env <> "" /\
    forall taskId taskId',
      getSSEUrl env taskId = getSSEUrl env taskId' -> taskId = taskId'.
Proof.
  intro env. split.
  - unfold API_BASE_URL. destruct env as [url|]; [| discriminate].
    destruct (url =? "") eqn:E; [discriminate |].
    intros ->. discriminate E.
  - intros taskId taskId' H. unfold getSSEUrl in H.
    apply append_cancel in H. now apply append_cancel in H.
Qed.

End Api.

(** * Submitting the intake form ([intake/page.tsx]) *)

Module IntakePage.

Import Intake Api.

Record IntakeFormData : Type := {
  freelancer_type : jsstring;
  location : jsstring;
  target_industries : list jsstring;
  services : list jsstring;
  selling_points : list jsstring;
  lead_count : Z
}.

(** The state cells of [IntakePage], and the calls made to [router.push]. *)
Record Page : Type := {
  loading : bool;
  error : option string;
  formData : IntakeFormData;
  industriesInput : jsstring;
  servicesInput : jsstring;
  sellingPointsInput : jsstring;
  pushed : list string
}.

Definition setError (e : option string) (p : Page) : Page :=
  {| loading := loading p; error := e; formData := formData p;
     industriesInput := industriesInput p; servicesInput := servicesInput p;
     sellingPointsInput := sellingPointsInput p; pushed := pushed p |}.

Definition setLoading (b : bool) (p : Page) : Page :=
  {| loading := b; error := error p; formData := formData p;
     industriesInput := industriesInput p; servicesInput := servicesInput p;
     sellingPointsInput := sellingPointsInput p; pushed := pushed p |}.

Definition router_push (path : string) (p : Page) : Page :=
  {| loading := loading p; error := error p; formData := formData p;
     industriesInput := industriesInput p; servicesInput := servicesInput p;
     sellingPointsInput := sellingPointsInput p; pushed := (pushed p ++ [path])%list |}.

(** [{ ...formData, target_industries: ..., services: ..., selling_points: ... }] *)
Definition finalData (p : Page) : IntakeFormData :=
  {| freelancer_type := freelancer_type (formData p);
     location := location (formData p);
     target_industries := parse_list (industriesInput p);
     services := parse_list (servicesInput p);
     selling_points := parse_list (sellingPointsInput p);
     lead_count := lead_count (formData p) |}.

(** The negation of
    [!finalData.freelancer_type || !finalData.location || finalData.services.length === 0] *)
Definition passes_validation (d : IntakeFormData) : bool :=
  negb (match freelancer_type d with [] => true | _ => false end
        || match location d with [] => true | _ => false end
        || (List.length (services d) =? 0)%nat).

(** [`/leads/${taskId}`] *)
Definition leads_path (taskId : value) : outcome string :=
  s <~ match taskId with
       | None => Returns "undefined"
       | Some j => ToString j
       end;
  Returns ("/leads/" ++ s).

(** [err instanceof Error ? err.message : 'Failed to submit request'] *)
Definition shown_message (err : Thrown) : string :=
  match err with
  | Error_with message => message
  | not_an_Error => "Failed to submit request"
  end.

Definition catch (err : Thrown) (p : Page) : Page :=
  setLoading false (setError (Some (shown_message err)) p).

(** [handleSubmit] up to its [await]: the page, and the data it sends to
    the gateway if it sends any. *)
Definition handleSubmit_start (p : Page) : Page * option IntakeFormData :=
  let p1 := setLoading true (setError None p) in
  if passes_validation (finalData p) then (p1, Some (finalData p))
  else (setLoading false (setError (Some "Please fill in all required fields") p1), None).

(** [handleSubmit] after the [await]. *)
Definition handleSubmit_settle (env : Environment) (p : Page) : Page :=
  match submitLeadRequest env with
  | inr taskId =>
      match leads_path taskId with
      | Returns path => router_push path p
      | Throws => catch (Error_with (type_error_message env)) p
      end
  | inl err => catch err p
  end.

Definition handleSubmit (env : Environment) (p : Page) : Page :=
  match handleSubmit_start p with
  | (p1, Some _) => handleSubmit_settle env p1
  | (p1, None) => p1
  end.

(** Only commas and white space. *)
Definition blank_input (input : jsstring) : Prop :=
  Forall (fun u => u = comma \/ is_white_space u = true) input.

Lemma passes_validation_iff p :
  passes_validation (finalData p) = true <->
  freelancer_type (formData p) <> [] /\
  location (formData p) <> [] /\
  ~ blank_input (servicesInput p).
Proof.
  unfold passes_validation, blank_input. cbn [freelancer_type location services finalData].
  rewrite <- parse_list_empty_iff.
  destruct (freelancer_type (formData p)), (location (formData p)),
    (parse_list (servicesInput p)); cbn; split;
    try discriminate; try (intros [H1 [H2 H3]]; congruence);
    intros _; repeat split; discriminate.
Qed.

(** A page with every required field filled in, for the examples. *)
Definition sample_page : Page :=
  {| loading := false; error := Some "old";
     formData := {| freelancer_type := sample_web_design; location := sample_SEO;
                    target_industries := []; services := []; selling_points := [];
                    lead_count := 25 |};
     industriesInput := []; servicesInput := (sample_SEO ++ [comma; space] ++ sample_web_design)%list;
     sellingPointsInput := [comma]; pushed := [] |}.

(** X18.  When the freelancer type or the location is empty, or the
    services input holds only commas and white space, [handleSubmit] sends
    nothing: whatever the gateway would answer, the page shows "Please fill
    in all required fields", re-enables the button and does not navigate. *)
Theorem validation_refuses :
  forall p,
    freelancer_type (formData p) = [] \/ location (formData p) = []
    \/ blank_input (servicesInput p) ->
    snd (handleSubmit_start p) = None /\
    forall env,
      error (handleSubmit env p) = Some "Please fill in all required fields" /\
      loading (handleSubmit env p) = false /\
      pushed (handleSubmit env p) = pushed p.
Proof.
  intros p H.
  assert (Hv : passes_validation (finalData p) = false).
  { destruct (passes_validation (finalData p)) eqn:E; [| reflexivity].
    apply passes_validation_iff in E as [H1 [H2 H3]].
    destruct H as [H | [H | H]]; contradiction. }
  unfold handleSubmit, handleSubmit_start. rewrite Hv. cbn. auto.
Qed.

Lemma validation_refuses_witness :
  snd (handleSubmit_start
         {| loading := false; error := None; formData := formData sample_page;
            industriesInput := []; servicesInput := [space; comma; 9%Z; comma];
            sellingPointsInput := []; pushed := [] |}) = None.
Proof.
  apply (validation_refuses
           {| loading := false; error := None; formData := formData sample_page;
              industriesInput := []; servicesInput := [space; comma; 9%Z; comma];
              sellingPointsInput := []; pushed := [] |}).
  right. right.
  constructor; [right; reflexivity |]. constructor; [left; reflexivity |].
  constructor; [right; reflexivity |]. constructor; [left; reflexivity |].
  constructor.
Defined.



(** The request fails with an [Error] whose message is empty. *)
Definition silent_failure (env : Environment) : Prop :=
  fetched env = NetworkFailure ""
  \/ (exists statusText, fetched env = Responded true statusText (NotJson ""))
  \/ type_error_message env = "".

(** X20.  A submission ends in exactly one of two ways: the page has
    navigated once, holds no error and keeps the button disabled; or it
    has not navigated, has re-enabled the button and holds an error
    message, which is empty (so that no banner shows) only when the
    request failed with an [Error] of empty message. *)
Theorem submission_outcome_exclusive :
  forall env p,
    (exists path,
        pushed (handleSubmit env p) = (pushed p ++ [path])%list /\
        error (handleSubmit env p) = None /\
        loading (handleSubmit env p) = true) \/
    (pushed (handleSubmit env p) = pushed p /\
     loading (handleSubmit env p) = false /\
     exists message,
       error (handleSubmit env p) = Some message /\
       (message = "" -> silent_failure env)).
Proof.
  intros env p. unfold handleSubmit, handleSubmit_start.
  destruct (passes_validation (finalData p)); cbn [fst snd].
  2:{ right. cbn. repeat split. eexists. split; [reflexivity | discriminate]. }
  unfold handleSubmit_settle, submitLeadRequest, silent_failure.
  destruct (fetched env) as [message | ok statusText body] eqn:Ef.
  - right. cbn. repeat split. exists message. split; [reflexivity |].
    intros ->. now left.
  - destruct ok; cbn [negb].
    2:{ right. cbn. repeat split. eexists. split; [reflexivity | discriminate]. }
    destruct body as [message | data].
    + right. cbn. repeat split. exists message. split; [reflexivity |].
      intros ->. right. left. now exists statusText.
    + destruct (result <~ member (Some data) "result"; member result "id") as [taskId|].
      * destruct (leads_path taskId) as [path|].
        -- left. exists path. cbn. auto.
        -- right. cbn. repeat split. eexists. split; [reflexivity |]. auto.
      * right. cbn. repeat split. eexists. split; [reflexivity |]. auto.
Qed.

(** X21.  When the gateway answers a valid form with a status that is not
    OK, the page shows "Failed to submit request: " followed by the status
    text, re-enables the button and does not navigate. *)
Theorem rejected_status_shown :
  forall env p statusText body,
    passes_validation (finalData p) = true ->
    fetched env = Responded false statusText body ->
    error (handleSubmit env p) = Some ("Failed to submit request: " ++ statusText) /\
    loading (handleSubmit env p) = false /\
    pushed (handleSubmit env p) = pushed p.
Proof.
  intros env p statusText body Hv Hf.
  unfold handleSubmit, handleSubmit_start. rewrite Hv.
  unfold handleSubmit_settle, submitLeadRequest. rewrite Hf. cbn. auto.
Qed.

Lemma rejected_status_shown_witness :
  error (handleSubmit
           {| fetched := Responded false "Service Unavailable" (NotJson "Unexpected token");
              type_error_message := "Cannot read properties of undefined" |}
           sample_page)
    = Some "Failed to submit request: Service Unavailable".
Proof.
  apply (rejected_status_shown
           {| fetched := Responded false "Service Unavailable" (NotJson "Unexpected token");
              type_error_message := "Cannot read properties of undefined" |}
           sample_page "Service Unavailable" (NotJson "Unexpected token")); reflexivity.
Defined.

(** X22.  When the gateway answers a valid form OK with a document whose
    [result.id] is a string, the page navigates to "/leads/" followed by
    that string, and to nowhere else. *)
Theorem accepted_navigates :
  forall env p statusText data taskId,
    passes_validation (finalData p) = true ->
    fetched env = Responded true statusText (JsonBody data) ->
    Some data ?."result" ?."id" = Some (JStr taskId) ->
    pushed (handleSubmit env p) = (pushed p ++ [("/leads/" ++ taskId)%string])%list /\
    error (handleSubmit env p) = None /\
    loading (handleSubmit env p) = true.
Proof.
  intros env p statusText data taskId Hv Hf Hid.
  unfold handleSubmit, handleSubmit_start. rewrite Hv.
  unfold handleSubmit_settle, submitLeadRequest. rewrite Hf. cbn [negb].
  destruct data as [| | | | |fields]; try discriminate Hid.
  cbn [member obind]. cbn [opt_member] in Hid.
  destruct (assoc "result" fields) as [[| | | | |rfields]|]; try discriminate Hid.
  cbn [member]. cbn [opt_member] in Hid. rewrite Hid. cbn. auto.
Qed.

Lemma accepted_navigates_witness :
  pushed (handleSubmit
            {| fetched := Responded true "OK"
                            (JsonBody (JObj [("result", JObj [("id", JStr "task-42")])]));
               type_error_message := "" |}
            sample_page) = ["/leads/task-42"].
Proof.
  apply (accepted_navigates
           {| fetched := Responded true "OK"
                           (JsonBody (JObj [("result", JObj [("id", JStr "task-42")])]));
              type_error_message := "" |}
           sample_page "OK" (JObj [("result", JObj [("id", JStr "task-42")])]) "task-42");
    reflexivity.
Defined.

(** X23.  When the gateway answers a valid form OK with a document whose
    [result] is there but carries no [id], the page still navigates: to
    "/leads/undefined". *)
Theorem missing_id_navigates_to_undefined :
  forall env p statusText data result,
    passes_validation (finalData p) = true ->
    fetched env = Responded true statusText (JsonBody data) ->
    Some data ?."result" = Some result ->
    result <> JNull ->
    Some result ?."id" = None ->
    pushed (handleSubmit env p) = (pushed p ++ ["/leads/undefined"])%list /\
    error (handleSubmit env p) = None.
Proof.
  intros env p statusText data result Hv Hf Hres Hnn Hid.
  unfold handleSubmit, handleSubmit_start. rewrite Hv.
  unfold handleSubmit_settle, submitLeadRequest. rewrite Hf. cbn [negb].
  destruct data as [| | | | |fields]; try discriminate Hres.
  cbn [member obind]. cbn [opt_member] in Hres. rewrite Hres.
  destruct result as [| | | | |rfields]; try contradiction; cbn [member];
    cbn [opt_member] in Hid; try rewrite Hid; cbn; auto.
Qed.

Lemma missing_id_navigates_to_undefined_witness :
  pushed (handleSubmit
            {| fetched := Responded true "OK"
                            (JsonBody (JObj [("result", JObj [("status", JStr "queued")])]));
               type_error_message := "" |}
            sample_page) = ["/leads/undefined"].
Proof.
  apply (missing_id_navigates_to_undefined
           {| fetched := Responded true "OK"
                           (JsonBody (JObj [("result", JObj [("status", JStr "queued")])]));
              type_error_message := "" |}
           sample_page "OK" (JObj [("result", JObj [("status", JStr "queued")])])
           (JObj [("status", JStr "queued")])); try reflexivity; discriminate.
Defined.

End IntakePage.

(** * The animation loop of [useCanvasAnimation] *)

Module Animation.

Local Open Scope list_scope.

(** The two variables of the composable, and the browser's side of
    [requestAnimationFrame]: the callbacks requested and neither run nor
    cancelled, and the handle the next request returns.  [ticks] counts the
    executions of [time += 0.02]; the picture itself (floating point) is
    not modelled. *)
Record Loop : Type := {
  animationFrameId : option nat;
  ticks : nat;
  scheduled : list nat;
  next_handle : nat
}.

Definition initial : Loop :=
  {| animationFrameId := None; ticks := 0; scheduled := []; next_handle := 1 |}.

Definition cancelAnimationFrame (h : nat) (a : Loop) : Loop :=
  {| animationFrameId := animationFrameId a; ticks := ticks a;
     scheduled := filter (fun k => negb (k =? h)%nat) (scheduled a);
     next_handle := next_handle a |}.

(** [render]: [drawable] says whether [canvasRef.value] and its 2d context
    are there.  Without them it returns at once; with them it draws,
    advances the time and requests the next frame. *)
Definition render (drawable : bool) (a : Loop) : Loop :=
  if drawable then
    {| animationFrameId := Some (next_handle a); ticks := S (ticks a);
       scheduled := scheduled a ++ [next_handle a];
       next_handle := S (next_handle a) |}
  else a.

Definition startAnimation (drawable : bool) (a : Loop) : Loop :=
  match animationFrameId a with
  | None => render drawable a
  | Some _ => a
  end.

Definition stopAnimation (a : Loop) : Loop :=
  match animationFrameId a with
  | Some h =>
      {| animationFrameId := None; ticks := ticks a;
         scheduled := scheduled (cancelAnimationFrame h a);
         next_handle := next_handle a |}
  | None => a
  end.

(** [onMounted], [onUnmounted], and the browser running the callback it
    holds under handle [h] (nothing happens if it holds none). *)
Inductive Event : Type :=
| mounted (drawable : bool)
| unmounted
| frame (h : nat) (drawable : bool).

Definition step (a : Loop) (e : Event) : Loop :=
  match e with
  | mounted drawable => startAnimation drawable a
  | unmounted => stopAnimation a
  | frame h drawable =>
      if existsb (Nat.eqb h) (scheduled a)
      then render drawable (cancelAnimationFrame h a)
      else a
  end.

Definition run (a : Loop) (events : list Event) : Loop := fold_left step events a.

(** Whatever is scheduled is the one frame the composable remembers. *)
Definition tidy (a : Loop) : Prop :=
  scheduled a = [] \/ exists h, scheduled a = [h] /\ animationFrameId a = Some h.

Lemma step_tidy a e : tidy a -> tidy (step a e).
Proof.
  intros [Hs | [h [Hs Hid]]]; destruct e as [drawable | | k drawable]; cbn [step].
  - unfold startAnimation. destruct (animationFrameId a); [now left |].
    unfold render. destruct drawable; [| now left].
    right. exists (next_handle a). cbn. rewrite Hs. auto.
  - unfold stopAnimation. destruct (animationFrameId a); [| now left].
    left. cbn. now rewrite Hs.
  - rewrite Hs. cbn. now left.
  - unfold startAnimation. rewrite Hid. right. eauto.
  - unfold stopAnimation. rewrite Hid. left. cbn. rewrite Hs. cbn.
    now rewrite Nat.eqb_refl.
  - rewrite Hs. cbn [existsb]. rewrite orb_false_r.
    destruct (k =? h)%nat eqn:E; [| right; eauto].
    apply Nat.eqb_eq in E. subst k.
    unfold render, cancelAnimationFrame. destruct drawable; cbn; rewrite Hs; cbn;
      rewrite Nat.eqb_refl; cbn; [right; exists (next_handle a); auto | now left].
Qed.

Lemma run_tidy events : forall a, tidy a -> tidy (run a events).
Proof.
  induction events as [|e events IH]; intros a H; cbn; auto.
  apply IH, step_tidy, H.
Qed.

(** X24.  However mounts, unmounts and frames interleave, at most one
    frame is pending, and it is the one whose handle the composable holds:
    two loops never run side by side. *)
Theorem at_most_one_frame_pending :
  forall events,
    (List.length (scheduled (run initial events)) <= 1)%nat /\
    forall h, In h (scheduled (run initial events)) ->
              animationFrameId (run initial events) = Some h.
Proof.
  intro events.
  destruct (run_tidy events initial (or_introl eq_refl)) as [-> | [h [-> Hid]]].
  - split; [cbn; lia | intros h []].
  - split; [cbn; lia | intros k [<- | []]; exact Hid].
Qed.

Definition is_frame (e : Event) : bool :=
  match e with
  | frame _ _ => true
  | _ => false
  end.

Lemma idle_ignores_frames events :
  forall a, scheduled a = [] -> forallb is_frame events = true -> run a events = a.
Proof.
  induction events as [|e events IH]; intros a Hs Hf; [reflexivity |].
  cbn in Hf. apply andb_true_iff in Hf as [He Hf].
  destruct e; try discriminate He. cbn [run fold_left step]. rewrite Hs. cbn.
  now apply IH.
Qed.

(** X25.  [stopAnimation] really stops the loop: after an unmount, reached
    from any history, nothing is pending and no handle is held, and
    whatever frames the browser might still try to run change nothing. *)
Theorem stop_halts_the_loop :
  forall events frames,
    forallb is_frame frames = true ->
    scheduled (step (run initial events) unmounted) = [] /\
    animationFrameId (step (run initial events) unmounted) = None /\
    run (step (run initial events) unmounted) frames
      = step (run initial events) unmounted.
Proof.
  intros events frames Hf.
  assert (Hs : scheduled (step (run initial events) unmounted) = []).
  { destruct (run_tidy events initial (or_introl eq_refl)) as [Hs | [h [Hs Hid]]];
      cbn [step]; unfold stopAnimation.
    - destruct (animationFrameId (run initial events)); [| exact Hs].
      cbn. now rewrite Hs.
    - rewrite Hid. cbn. rewrite Hs. cbn. now rewrite Nat.eqb_refl. }
  split; [exact Hs | split].
  - cbn [step]. unfold stopAnimation.
    destruct (animationFrameId (run initial events)) eqn:E; [reflexivity | exact E].
  - now apply idle_ignores_frames.
Qed.

Lemma stop_halts_the_loop_witness :
  run (step (run initial [mounted true; frame 1 true; frame 2 true]) unmounted)
      [frame 3 true; frame 1 true]
    = step (run initial [mounted true; frame 1 true; frame 2 true]) unmounted.
Proof.
  apply (stop_halts_the_loop [mounted true; frame 1 true; frame 2 true]
                             [frame 3 true; frame 1 true]).
  reflexivity.
Defined.

(** X26.  A frame that finds no canvas ends the loop for good: nothing is
    pending afterwards, the stale handle stays in [animationFrameId], and
    so neither a later [startAnimation] nor any frame renders again. *)
Theorem lost_canvas_stalls_the_loop :
  forall events h,
    scheduled (run initial events) = [h] ->
    scheduled (step (run initial events) (frame h false)) = [] /\
    animationFrameId (step (run initial events) (frame h false)) = Some h /\
    forall e,
      e <> unmounted ->
      step (step (run initial events) (frame h false)) e
        = step (run initial events) (frame h false).
Proof.
  intros events h Hs.
  destruct (run_tidy events initial (or_introl eq_refl)) as [H | [k [Hk Hid]]];
    [rewrite H in Hs; discriminate Hs |].
  rewrite Hs in Hk. injection Hk as <-.
  assert (Hst : step (run initial events) (frame h false)
                = cancelAnimationFrame h (run initial events)).
  { cbn [step]. rewrite Hs. cbn. now rewrite Nat.eqb_refl. }
  rewrite Hst.
  assert (Hsch : scheduled (cancelAnimationFrame h (run initial events)) = []).
  { cbn. rewrite Hs. cbn. now rewrite Nat.eqb_refl. }
  split; [exact Hsch | split; [exact Hid |]].
  intros e He. destruct e as [drawable | | k drawable]; [| contradiction |].
  - cbn [step]. unfold startAnimation. cbn [animationFrameId cancelAnimationFrame].
    now rewrite Hid.
  - cbn [step]. rewrite Hsch. reflexivity.
Qed.

Lemma lost_canvas_stalls_the_loop_witness :
  scheduled (step (run initial [mounted true; frame 1 true]) (frame 2 false)) = [] /\
  animationFrameId (step (run initial [mounted true; frame 1 true]) (frame 2 false))
    = Some 2 /\
  forall e,
    e <> unmounted ->
    step (step (run initial [mounted true; frame 1 true]) (frame 2 false)) e
      = step (run initial [mounted true; frame 1 true]) (frame 2 false).
Proof.
  apply (lost_canvas_stalls_the_loop [mounted true; frame 1 true] 2). reflexivity.
Defined.

End Animation.

(** * The chat view that hosts the animation *)

Module Chat.

Import Intake.
Local Open Scope list_scope.

Inductive Role : Type := user | assistant.

(** [id] is the number whose decimal digits [toString()] writes. *)
Record Message : Type := {
  id : Z;
  role : Role;
  content : jsstring
}.

(** The refs of the component, and the [setTimeout] callbacks not yet
    run. *)
Record View : Type := {
  messages : list Message;
  input : jsstring;
  isListening : bool;
  timers : nat
}.

Definition initial : View :=
  {| messages := []; input := []; isListening := false; timers := 0 |}.

Definition units (s : string) : jsstring :=
  map (fun a => Z.of_nat (nat_of_ascii a)) (list_ascii_of_string s).

Definition simulated_response : jsstring :=
  units "This is a simulated response. Connect to an AI API to get real responses.".

(** [handleSubmit], with [now] the reading of [Date.now()]. *)
Definition handleSubmit (now : Z) (v : View) : View :=
  match trim (input v) with
  | [] => v
  | text =>
      {| messages := messages v ++ [{| id := now; role := user; content := text |}];
         input := [];
         isListening := isListening v;
         timers := S (timers v) |}
  end.

(** The callback given to [setTimeout]. *)
Definition respond (now : Z) (v : View) : View :=
  {| messages := messages v
                 ++ [{| id := (now + 1)%Z; role := assistant;
                        content := simulated_response |}];
     input := input v;
     isListening := isListening v;
     timers := pred (timers v) |}.

(** [event.key === 'Enter' && !event.shiftKey] *)
Definition handleKeyDown (key : string) (shiftKey : bool) (now : Z) (v : View) : View :=
  if (key =? "Enter")%string && negb shiftKey then handleSubmit now v else v.

Definition toggleListening (v : View) : View :=
  {| messages := messages v; input := input v;
     isListening := negb (isListening v); timers := timers v |}.

Inductive Event : Type :=
| typed (text : jsstring)
| submitted (now : Z)
| key_down (key : string) (shiftKey : bool) (now : Z)
| timer_fired (now : Z)
| toggled.

Definition step (v : View) (e : Event) : View :=
  match e with
  | typed text =>
      {| messages := messages v; input := text;
         isListening := isListening v; timers := timers v |}
  | submitted now => handleSubmit now v
  | key_down key shiftKey now => handleKeyDown key shiftKey now v
  | timer_fired now =>
      match timers v with
      | O => v
      | S _ => respond now v
      end
  | toggled => toggleListening v
  end.

Definition run (v : View) (events : list Event) : View := fold_left step events v.

Definition by_user (m : Message) : bool :=
  match role m with
  | user => true
  | assistant => false
  end.

Definition count_user (v : View) : nat := List.length (filter by_user (messages v)).

Definition count_assistant (v : View) : nat :=
  List.length (filter (fun m => negb (by_user m)) (messages v)).

(** What holds of every reachable view. *)
Definition sound (v : View) : Prop :=
  count_user v = count_assistant v + timers v /\
  Forall (fun m => by_user m = true ->
                   content m <> [] /\ starts_clean (content m) = true
                   /\ ends_clean (content m) = true)
         (messages v).

Lemma handleSubmit_sound now v : sound v -> sound (handleSubmit now v).
Proof.
  intros [Hc Hall]. unfold handleSubmit.
  destruct (trim (input v)) as [|u t] eqn:E; [now split |].
  split.
  - unfold count_user, count_assistant in *. cbn [messages timers].
    rewrite !filter_app, !length_app. cbn. lia.
  - cbn [messages]. apply Forall_app. split; [exact Hall |].
    constructor; [| constructor]. intros _. cbn [content]. rewrite <- E.
    split; [rewrite E; discriminate |].
    split; [apply trim_starts_clean | apply trim_ends_clean].
Qed.

Lemma step_sound v e : sound v -> sound (step v e).
Proof.
  intro H. destruct e as [text | now | key shiftKey now | now |]; cbn [step].
  - exact H.
  - now apply handleSubmit_sound.
  - unfold handleKeyDown. destruct (_ && _); [now apply handleSubmit_sound | exact H].
  - destruct H as [Hc Hall].
    destruct (timers v) as [|n] eqn:E; [split; [rewrite E; exact Hc | exact Hall] |].
    split.
    + unfold count_user, count_assistant, respond in *. cbn [messages timers].
      rewrite !filter_app, !length_app, E. cbn. lia.
    + cbn [respond messages]. apply Forall_app. split; [exact Hall |].
      constructor; [| constructor]. intro Hu. discriminate Hu.
  - exact H.
Qed.

Lemma run_sound events : forall v, sound v -> sound (run v events).
Proof.
  induction events as [|e events IH]; intros v H; cbn; auto.
  apply IH, step_sound, H.
Qed.

Lemma initial_sound : sound initial.
Proof. split; [reflexivity | constructor]. Qed.

(** X27.  An input made of white space only is not sent: [handleSubmit]
    changes nothing.  Any other input is sent trimmed, as one message of
    the user; the input is cleared and one reply is scheduled. *)
Theorem blank_input_not_sent :
  forall now v,
    (Forall (fun u => is_white_space u = true) (input v) -> handleSubmit now v = v) /\
    (~ Forall (fun u => is_white_space u = true) (input v) ->
     messages (handleSubmit now v)
       = messages v ++ [{| id := now; role := user; content := trim (input v) |}] /\
     input (handleSubmit now v) = [] /\
     timers (handleSubmit now v) = S (timers v)).
Proof.
  intros now v. unfold handleSubmit. split; intro H.
  - apply trim_blank in H. now rewrite H.
  - destruct (trim (input v)) as [|u t] eqn:E; [| auto].
    exfalso. apply H. now apply trim_blank.
Qed.

(** X28.  Every message of the user is answered once: in every reachable
    view the user's messages are as many as the assistant's plus the
    replies still scheduled. *)
Theorem every_message_answered :
  forall events,
    count_user (run initial events)
      = count_assistant (run initial events) + timers (run initial events).
Proof.
  intro events. apply (run_sound events initial initial_sound).
Qed.

(** X29.  No message of the user is empty or has white space at either
    end, whatever was typed. *)
Theorem user_messages_trimmed :
  forall events m,
    In m (messages (run initial events)) ->
    role m = user ->
    content m <> [] /\ starts_clean (content m) = true /\ ends_clean (content m) = true.
Proof.
  intros events m Hin Hrole.
  destruct (run_sound events initial initial_sound) as [_ Hall].
  rewrite Forall_forall in Hall. apply (Hall m Hin).
  unfold by_user. now rewrite Hrole.
Qed.

Lemma user_messages_trimmed_witness :
  content {| id := 1700000000000; role := user; content := sample_SEO |} <> [] /\
  starts_clean (content {| id := 1700000000000; role := user; content := sample_SEO |}) = true /\
  ends_clean (content {| id := 1700000000000; role := user; content := sample_SEO |}) = true.
Proof.
  apply (user_messages_trimmed
           [typed (space :: sample_SEO ++ [space; 10%Z]); key_down "Enter" true 5;
            key_down "Enter" false 1700000000000; timer_fired 1700000001000]
           {| id := 1700000000000; role := user; content := sample_SEO |}).
  - left. reflexivity.
  - reflexivity.
Defined.

End Chat.
